(** * Force-signal analysis: a shallow embedding of [force_signal_analysis.py]

    The development follows the Python module function by function:
    [compute_sampling_rate], [moving_average], [butterworth_lowpass] and
    [detect_heel_toe], on top of a small model of the NumPy primitives they
    call ([np.diff], [np.mean], [np.argmax], [np.argmin], [np.ones],
    [np.convolve]).

    Number model.  The arithmetic is read in two ways.

    In the exact reading a float64 sample is a rational ([Qc], rationals in
    lowest terms, so that equality is Leibniz equality).  It carries the
    structure of the algorithms (which index, which length, which
    exception) and the identities that float64 satisfies up to rounding
    only; rounding, overflow, underflow and signed zeros are outside of
    it, and the two non-finite outcomes the code can produce from finite
    data (a division of [1.0] by a zero mean and the mean of an empty
    array) are kept as the constructors [inf] and [nan] of [float64].  A
    statement that depends on exactness says so.

    In the float64 reading (module [f64]) a scalar is a binary64 float with
    IEEE arithmetic, tagged with its Python type.  It carries the scalar
    paths of the sampling-rate estimator and of the low-pass filter, where
    rounding, underflow and the difference between a Python [float] and a
    NumPy scalar decide the outcome.

    Array model.  A one-dimensional [np.ndarray] is a list; an index is a
    [nat]. *)

From Stdlib Require Import QArith Qcanon Lia.
From Corelib Require Import PrimFloat.
From stdpp Require Import base numbers option list.

Local Open Scope Qc_scope.

(** ** Exceptions and results *)

(** The Python exceptions the module can raise, followed by the error kinds
    the specification names.  No function of the source raises one of the
    latter four: the module defines no exception class of its own. *)
Inductive exception : Set :=
  | ValueError
  | IndexError
  | ZeroDivisionError
  | DataFormatError
  | InsufficientDataError
  | InvalidParameterError
  | InvalidSamplingError.

#[global] Instance exception_eq_dec : EqDecision exception.
Proof. solve_decision. Defined.

Inductive result (A : Type) : Type :=
  | Ok (a : A)
  | Raise (e : exception).
Arguments Ok {A} a.
Arguments Raise {A} e.

#[global] Instance result_eq_dec {A} `{EqDecision A} : EqDecision (result A).
Proof. solve_decision. Defined.

#[global] Instance result_ret : MRet result := λ A a, Ok a.
#[global] Instance result_bind : MBind result := λ A B f m,
  match m with
  | Ok a => f a
  | Raise e => Raise e
  end.

Definition raises {A} (m : result A) (e : exception) : Prop := m = Raise e.
Definition returns {A} (m : result A) : Prop := ∃ a, m = Ok a.

(** A NumPy float64 scalar. *)
Inductive float64 : Set :=
  | fin (q : Qc)
  | inf
  | nan.

#[global] Instance float64_eq_dec : EqDecision float64.
Proof. solve_decision. Defined.

(** [1.0 / dt] for a NumPy scalar [dt]: a zero divisor gives an infinity
    (NumPy warns and does not raise). *)
Definition float64_inv (dt : float64) : float64 :=
  match dt with
  | fin q => if decide (q = 0) then inf else fin (1 / q)
  | inf => fin 0
  | nan => nan
  end.

(** ** NumPy primitives *)

Module np.

(** [np.diff(a)]: [out[i] = a[i+1] - a[i]]. *)
Fixpoint diff (a : list Qc) : list Qc :=
  match a with
  | x :: (y :: _) as t => (y - x) :: diff t
  | _ => []
  end.

Definition sum (a : list Qc) : Qc := foldr Qcplus 0 a.

(** [np.mean(a)]: the sum over the number of elements; [nan] on an empty
    array. *)
Definition mean (a : list Qc) : float64 :=
  match a with
  | [] => nan
  | _ => fin (sum a / Qc_of_Z (Z.of_nat (length a)))
  end.

(** The scan of [np.argmax]: the running maximum [mp] found at [mi],
    replaced only by a strictly larger element. *)
Fixpoint argmax_scan (mp : Qc) (mi i : nat) (a : list Qc) : nat :=
  match a with
  | [] => mi
  | x :: a' =>
      if decide (mp < x) then argmax_scan x i (S i) a'
      else argmax_scan mp mi (S i) a'
  end.

Definition argmax (a : list Qc) : result nat :=
  match a with
  | [] => Raise ValueError
  | x :: a' => Ok (argmax_scan x 0 1 a')
  end.

Fixpoint argmin_scan (mp : Qc) (mi i : nat) (a : list Qc) : nat :=
  match a with
  | [] => mi
  | x :: a' =>
      if decide (x < mp) then argmin_scan x i (S i) a'
      else argmin_scan mp mi (S i) a'
  end.

Definition argmin (a : list Qc) : result nat :=
  match a with
  | [] => Raise ValueError
  | x :: a' => Ok (argmin_scan x 0 1 a')
  end.

(** [a[i]] for a non-negative index. *)
Definition getitem (a : list Qc) (i : nat) : result Qc :=
  match a !! i with
  | Some x => Ok x
  | None => Raise IndexError
  end.

(** [np.ones(n)]: [n] ones; a negative dimension is refused.  The
    dimension is an unbounded integer here: the failures of NumPy on a
    dimension outside its fixed-width index type, or on an array that
    does not fit in memory, are not modelled, and the statements about
    [moving_average] for every window bound the window by the length of
    the series. *)
Definition ones (n : Z) : result (list Qc) :=
  if decide (n < 0)%Z then Raise ValueError
  else Ok (replicate (Z.to_nat n) 1).

(** [a / w] for an array [a] and a Python integer [w], element by
    element, in the exact reading: the quotient [1 / w] is the rational,
    where the code holds its rounded float64.  The only division by zero
    the source can reach is on the empty array [np.ones(0)]. *)
Definition divide (a : list Qc) (w : Z) : list Qc :=
  map (λ x, x / Qc_of_Z w) a.

(** Sample [p] of the full convolution, [Σ_m a[p-m] * v[m]], the terms
    whose index falls outside [a] left out. *)
Definition conv_at (a v : list Qc) (p : nat) : Qc :=
  sum (imap (λ m vm,
               if decide (m ≤ p)%nat
               then default 0 (a !! (p - m)%nat) * vm
               else 0) v).

(** [np.convolve(a, v, mode="same")].  The longer argument becomes [a];
    an empty argument is refused; the result keeps [len(a)] samples of
    the full convolution, starting [len(v) - 1 - len(v)/2] samples in
    (the [n_left = n/2] of NumPy's correlate loop). *)
Definition convolve (a v : list Qc) : result (list Qc) :=
  let '(a, v) := if decide (length a < length v)%nat then (v, a) else (a, v) in
  if decide (length a = 0)%nat then Raise ValueError
  else if decide (length v = 0)%nat then Raise ValueError
  else
    let n_left := (length v / 2)%nat in
    Ok (map (λ k, conv_at a v (k + (length v - 1 - n_left))%nat)
            (seq 0 (length a))).

End np.

(** ** Event detector *)

Definition detect_heel_toe (force time : list Qc) : result (nat * nat * Qc * Qc) :=
  let slope := np.diff force in
  heel_idx ← np.argmax slope;
  toe_idx ← np.argmin slope;
  heel_time ← np.getitem time (heel_idx + 1);
  toe_time ← np.getitem time (toe_idx + 1);
  Ok (heel_idx + 1, toe_idx + 1, heel_time, toe_time)%nat.

(** ** Sampling-rate estimator *)

(** The function raises nothing: NumPy only warns on the mean of an empty
    array and on a division by zero. *)
Definition compute_sampling_rate (time : list Qc) : result float64 :=
  let dt := np.mean (np.diff time) in
  let fs := float64_inv dt in
  Ok fs.

(** ** Moving-average filter *)

Definition moving_average (signal : list Qc) (window : Z) : result (list Qc) :=
  ones ← np.ones window;
  let kernel := np.divide ones window in
  np.convolve signal kernel.

(** ** Zero-phase low-pass filter *)

(** [scipy.signal] is not part of the repository: its two entry points are
    an interface.  [butter order Wn] designs the coefficient pair [(b, a)]
    and [filtfilt ba x] applies it forward and backward. *)
Class SciPySignal : Type := {
  butter : Z → Qc → result (list Qc * list Qc);
  filtfilt : list Qc * list Qc → list Qc → result (list Qc);
}.

(** Python's [min(x, y)]: the first argument unless the second is smaller. *)
Definition py_min (x y : Qc) : Qc := if decide (y < x) then y else x.

(** [x / y] on Python floats, in the exact reading: the quotient, or
    [ZeroDivisionError] for a zero divisor. *)
Definition float_div (x y : Qc) : result Qc :=
  if decide (y = 0) then Raise ZeroDivisionError else Ok (x / y).

Definition c099 : Qc := Q2Qc (99 # 100).

Definition butterworth_lowpass `{SciPySignal}
    (signal : list Qc) (fs fc : Qc) (order : Z) : result (list Qc) :=
  nyquist ← float_div fs 2;
  let fc_clipped := py_min fc (c099 * nyquist) in
  Wn ← float_div fc_clipped nyquist;
  ba ← butter order Wn;
  filtered ← filtfilt ba signal;
  Ok filtered.

(** A stand-in for the library, used where a statement about the
    interface is run on concrete inputs; it is not SciPy.  It follows the
    library's argument checks: the design accepts a critical frequency
    strictly between 0 and 1 and a non-negative order and returns
    [order + 1] coefficients on each side (those of the identity filter);
    the application needs more samples than its padding
    [3 * max(len(a), len(b))] and returns an array of the length of its
    input (the input's samples). *)
Definition passthrough_signal : SciPySignal := {|
  butter order Wn :=
    if decide (0 < Wn ∧ Wn < 1 ∧ (0 ≤ order)%Z)
    then Ok (1 :: replicate (Z.to_nat order) 0, 1 :: replicate (Z.to_nat order) 0)
    else Raise ValueError;
  filtfilt ba x :=
    if decide (3 * (length ba.1 `max` length ba.2) < length x)%nat then Ok x
    else Raise ValueError;
|}.

(** ** Specification-side notions *)

(** [p] is the first position of the maximum of [l]: nothing in [l] is
    larger than [l[p]] and everything before [p] is strictly smaller. *)
Definition first_max_at (l : list Qc) (p : nat) : Prop :=
  ∃ m, l !! p = Some m
       ∧ (∀ j x, l !! j = Some x → x ≤ m)
       ∧ (∀ j x, (j < p)%nat → l !! j = Some x → x < m).

Definition first_min_at (l : list Qc) (p : nat) : Prop :=
  ∃ m, l !! p = Some m
       ∧ (∀ j x, l !! j = Some x → m ≤ x)
       ∧ (∀ j x, (j < p)%nat → l !! j = Some x → m < x).


(** The sample at an integer position, zero outside the series. *)
Definition sample_at (signal : list Qc) (j : Z) : Qc :=
  if decide (0 ≤ j)%Z then default 0 (signal !! Z.to_nat j) else 0.

(** The average of the [W] samples around [i], positions
    [i - W/2 .. i - W/2 + W - 1], a position outside the series
    contributing nothing while the divisor stays [W]. *)
Definition centered_average (signal : list Qc) (W : Z) (i : nat) : Qc :=
  np.sum (map (sample_at signal) (seqZ (Z.of_nat i - W / 2) W)) / Qc_of_Z W.

(** ** Test data and evaluation *)

(** An array given by integer-valued samples. *)
Definition floats (l : list Z) : list Qc := map Qc_of_Z l.

(** Closed equations between computed rationals are decided by running
    the decision procedure. *)
Ltac by_evaluation :=
  match goal with
  | |- ?P => apply (bool_decide_unpack P); vm_compute; exact I
  end.

(** ** Notions used by the further properties *)

(** The detector's result with the roles of the two events exchanged. *)
Definition swap_events (r : nat * nat * Qc * Qc) : nat * nat * Qc * Qc :=
  let '(heel_idx, toe_idx, heel_time, toe_time) := r in
  (toe_idx, heel_idx, toe_time, heel_time).

(** All elements of a sequence are equal. *)
Definition all_equal (l : list Qc) : Prop :=
  ∀ i j x y, l !! i = Some x → l !! j = Some y → x = y.

(** [N] timestamps starting at [t0], [h] apart. *)
Definition uniform_grid (t0 h : Qc) (N : nat) : list Qc :=
  map (λ i, t0 + Qc_of_Z (Z.of_nat i) * h) (seq 0 N).

(** ** CSV loader

    [pandas.read_csv] is not part of the repository: the frame it returns
    is an interface value.  A frame is the list of its columns in file
    order, each a name and its data; a column name is a Python string,
    the list of its code points.  The columns are numeric, as the rest of
    the module needs them. *)

Module loader.

Definition pystr : Set := list N.
Definition frame : Type := list (pystr * list Qc).

(** What [to_numpy] returns: a vector for a single column, a matrix with
    one row per record when the selection holds several columns. *)
Inductive ndarray : Type :=
  | Arr1 (column : list Qc)
  | Arr2 (rows : list (list Qc)).

(** What the loader can raise: an exception of [read_csv] or the
    [KeyError] of a column lookup. *)
Inductive load_exception (E : Type) : Type :=
  | ReadError (e : E)
  | KeyError (key : pystr).
Arguments ReadError {E} e.
Arguments KeyError {E} key.

(** The strings ["time"] and ["force"]. *)
Definition time_key : pystr := [116; 105; 109; 101]%N.
Definition force_key : pystr := [102; 111; 114; 99; 101]%N.

(** [str.isspace] on one code point: Python's table of whitespace. *)
Definition isspace (c : N) : bool :=
  ((9 <=? c) && (c <=? 13) || (28 <=? c) && (c <=? 32)
   || (c =? 133) || (c =? 160) || (c =? 5760)
   || (8192 <=? c) && (c <=? 8202)
   || (c =? 8232) || (c =? 8233) || (c =? 8239) || (c =? 8287)
   || (c =? 12288))%N.

Fixpoint lstrip (s : pystr) : pystr :=
  match s with
  | c :: s' => if isspace c then lstrip s' else s
  | [] => []
  end.

Definition rstrip (s : pystr) : pystr := reverse (lstrip (reverse s)).

(** [s.strip()]: whitespace removed at both ends. *)
Definition strip (s : pystr) : pystr := rstrip (lstrip s).

(** [data.columns = data.columns.str.strip()]. *)
Definition strip_columns (data : frame) : frame :=
  map (λ c, (strip c.1, c.2)) data.

(** The records of a selection of columns, one row per record. *)
Definition rows_of (columns : list (list Qc)) : list (list Qc) :=
  match columns with
  | [] => []
  | c :: _ => map (λ i, map (λ col, default 0 (col !! i)) columns)
                  (seq 0 (length c))
  end.

(** [data[key].to_numpy()]: the column of that name; [KeyError] when there
    is none; all the columns of that name, as a matrix, when there are
    several. *)
Definition getitem_to_numpy (data : frame) (key : pystr) : option ndarray :=
  match filter (λ c, c.1 = key) data with
  | [] => None
  | [c] => Some (Arr1 c.2)
  | cs => Some (Arr2 (rows_of (map snd cs)))
  end.

Section load.
Context {F E : Type} (read_csv : F → E + frame).

Definition load_fsr_csv (filename : F) : load_exception E + (ndarray * ndarray) :=
  match read_csv filename with
  | inl e => inl (ReadError e)
  | inr data =>
      let data := strip_columns data in
      match getitem_to_numpy data time_key with
      | None => inl (KeyError time_key)
      | Some time =>
          match getitem_to_numpy data force_key with
          | None => inl (KeyError force_key)
          | Some force => inr (time, force)
          end
      end
  end.

End load.

End loader.

(** Two frames with the same data whose column names differ only by
    whitespace added before and after. *)
Definition padded (data data' : loader.frame) : Prop :=
  Forall2 (λ c c',
             c'.2 = c.2
             ∧ ∃ l r, Forall (λ x, loader.isspace x = true) l
                      ∧ Forall (λ x, loader.isspace x = true) r
                      ∧ c'.1 = l ++ c.1 ++ r)
          data data'.

(** All columns of a frame hold the same number of records. *)
Definition rectangular (data : loader.frame) : Prop :=
  ∀ c c', c ∈ data → c' ∈ data → length c.2 = length c'.2.

(** Strings and frames for the examples: ["time"] and ["force"] with
    whitespace around them, and a third column. *)
Definition padded_time_name : loader.pystr :=
  [32; 9]%N ++ loader.time_key ++ [32]%N.
Definition padded_force_name : loader.pystr := loader.force_key ++ [13; 10]%N.
Definition trial_name : loader.pystr := [116; 114; 105; 97; 108]%N.

Definition sample_frame : loader.frame :=
  [ (loader.time_key, floats [0; 1; 2; 3]%Z);
    (trial_name, floats [7; 7; 7; 7]%Z);
    (loader.force_key, floats [0; 5; 9; 2]%Z) ].

Definition sample_frame_padded : loader.frame :=
  [ (padded_time_name, floats [0; 1; 2; 3]%Z);
    (trial_name, floats [7; 7; 7; 7]%Z);
    (padded_force_name, floats [0; 5; 9; 2]%Z) ].

(** ** The float64 reading of the scalar paths *)

Module f64.

(** A scalar with its Python type: a Python [float] or a NumPy
    [np.float64].  Both hold a binary64 value. *)
Inductive scalar : Set :=
  | pyfloat (x : float)
  | npfloat (x : float).

Definition value (s : scalar) : float :=
  match s with
  | pyfloat x => x
  | npfloat x => x
  end.

(** [a / b].  Between two Python floats a zero divisor raises
    [ZeroDivisionError]; as soon as one operand is a NumPy scalar the
    quotient is NumPy's, which warns and returns an infinity or NaN. *)
Definition truediv (a b : scalar) : result scalar :=
  match a, b with
  | pyfloat x, pyfloat y =>
      if (y =? 0)%float then Raise ZeroDivisionError else Ok (pyfloat (x / y))
  | _, _ => Ok (npfloat (value a / value b))
  end.

(** [a * b]. *)
Definition mul (a b : scalar) : scalar :=
  match a, b with
  | pyfloat x, pyfloat y => pyfloat (x * y)
  | _, _ => npfloat (value a * value b)
  end.

(** Python's [min(x, y)]: the first argument unless the second is smaller. *)
Definition py_min (x y : scalar) : scalar :=
  if (value y <? value x)%float then y else x.

(** The literal [0.99]: the closest binary64 value. *)
Definition c099 : float := 0x1.fae147ae147aep-1%float.

(** [scipy.signal] on float64 arrays, as an interface. *)
Class SciPySignal : Type := {
  butter : Z → float → result (list float * list float);
  filtfilt : list float * list float → list float → result (list float);
}.

Definition butterworth_lowpass `{SciPySignal}
    (signal : list float) (fs fc : scalar) (order : Z) : result (list float) :=
  nyquist ← truediv fs (pyfloat 2);
  let fc_clipped := py_min fc (mul (pyfloat c099) nyquist) in
  Wn ← truediv fc_clipped nyquist;
  ba ← butter order (value Wn);
  filtered ← filtfilt ba signal;
  Ok filtered.

(** [np.diff] on a float64 array. *)
Fixpoint diff (a : list float) : list float :=
  match a with
  | x :: (y :: _) as t => (y - x)%float :: diff t
  | _ => []
  end.

(** NumPy's pairwise summation of a float64 array.  Fewer than eight
    elements are added one by one, from [-0.0]; up to 128 elements go
    through eight running sums, combined in pairs, the elements past the
    last full group of eight added one by one at the end; a longer array
    is cut at half its length, rounded down to a multiple of eight. *)
Definition sum_from (acc : float) (a : list float) : float :=
  fold_left PrimFloat.add a acc.

Fixpoint unrolled (fuel : nat) (r rest : list float) : list float * list float :=
  match fuel with
  | O => (r, rest)
  | S fuel' =>
      if decide (8 ≤ length rest)%nat
      then unrolled fuel' (zip_with PrimFloat.add r (take 8 rest)) (drop 8 rest)
      else (r, rest)
  end.

Definition block_sum (a : list float) : float :=
  let '(r, rest) := unrolled (length a) (take 8 a) (drop 8 a) in
  let r_ i := default 0%float (r !! i) in
  sum_from (((r_ 0%nat + r_ 1%nat) + (r_ 2%nat + r_ 3%nat))
            + ((r_ 4%nat + r_ 5%nat) + (r_ 6%nat + r_ 7%nat)))%float rest.

Fixpoint pairwise_sum (fuel : nat) (a : list float) : float :=
  match fuel with
  | O => sum_from (-0)%float a
  | S fuel' =>
      if decide (length a < 8)%nat then sum_from (-0)%float a
      else if decide (length a ≤ 128)%nat then block_sum a
      else
        let n2 := (length a / 2 - (length a / 2) mod 8)%nat in
        (pairwise_sum fuel' (take n2 a) + pairwise_sum fuel' (drop n2 a))%float
  end.

(** [np.add.reduce]: [0.0] on an empty array, otherwise the pairwise sum
    added to the initial value [-0.0]. *)
Definition add_reduce (a : list float) : float :=
  match a with
  | [] => 0%float
  | _ => (-0 + pairwise_sum (length a) a)%float
  end.

(** A count as a float64 (exact below 2^53). *)
Fixpoint of_positive (p : positive) : float :=
  match p with
  | xH => 1%float
  | xO p => (2 * of_positive p)%float
  | xI p => (2 * of_positive p + 1)%float
  end.

Definition of_nat (n : nat) : float :=
  match n with
  | O => 0%float
  | S _ => of_positive (Pos.of_nat n)
  end.

(** [np.mean]: the sum over the count; NaN ([0.0 / 0]) on an empty
    array. *)
Definition mean (a : list float) : float :=
  (add_reduce a / of_nat (length a))%float.

(** The estimator on a float64 time array; the result is a NumPy scalar
    and nothing is raised. *)
Definition compute_sampling_rate (time : list float) : float :=
  let dt := mean (diff time) in
  let fs := (1 / dt)%float in
  fs.

(** The stand-in for the library on float64 arrays (see
    [passthrough_signal]). *)
Definition passthrough_signal : SciPySignal := {|
  butter order Wn :=
    if ((0 <? Wn) && (Wn <? 1))%float && bool_decide (0 ≤ order)%Z
    then Ok (1%float :: replicate (Z.to_nat order) 0%float,
             1%float :: replicate (Z.to_nat order) 0%float)
    else Raise ValueError;
  filtfilt ba x :=
    if decide (3 * (length ba.1 `max` length ba.2) < length x)%nat then Ok x
    else Raise ValueError;
|}.

End f64.

(** * Properties *)

(** ** Results *)

Lemma bind_Ok {A B} (m : result A) (k : A → result B) (b : B) :
  m ≫= k = Ok b ↔ ∃ a, m = Ok a ∧ k a = Ok b.
Proof.
  destruct m as [a|e]; simpl; split.
  - eauto.
  - by intros (a' & [= <-] & ?).
  - done.
  - by intros (? & ? & ?).
Qed.

(** ** First differences *)

Lemma diff_length (a : list Qc) : length (np.diff a) = (length a - 1)%nat.
Proof.
  induction a as [|x [|y t] IH]; simpl in *; try done.
  rewrite IH. lia.
Qed.

Lemma diff_lookup (a : list Qc) (i : nat) (x y : Qc) :
  a !! i = Some x → a !! S i = Some y → np.diff a !! i = Some (y - x).
Proof.
  revert i. induction a as [|x0 [|y0 t] IH]; intros i Hx Hy; try done.
  destruct i as [|i]; simpl in *.
  - by simplify_eq.
  - by apply IH.
Qed.

(** ** The scans of argmax and argmin *)

Lemma argmax_scan_first_max (a pre : list Qc) (mp : Qc) (mi : nat) :
  pre !! mi = Some mp →
  (∀ j x, pre !! j = Some x → x ≤ mp) →
  (∀ j x, (j < mi)%nat → pre !! j = Some x → x < mp) →
  first_max_at (pre ++ a) (np.argmax_scan mp mi (length pre) a).
Proof.
  revert pre mp mi. induction a as [|x a IH]; intros pre mp mi Hmi Hle Hlt; simpl.
  - rewrite app_nil_r. by exists mp.
  - replace (pre ++ x :: a) with ((pre ++ [x]) ++ a) by by rewrite <-app_assoc.
    replace (S (length pre)) with (length (pre ++ [x]))
      by (rewrite length_app; simpl; lia).
    destruct (decide (mp < x)) as [Hbig|Hsmall]; apply IH.
    + by rewrite lookup_app_r, Nat.sub_diag.
    + intros j y Hj. apply lookup_app_Some in Hj as [Hj|[_ Hj]].
      * apply Qclt_le_weak, Qcle_lt_trans with mp; eauto.
      * apply list_lookup_singleton_Some in Hj as [_ <-]. apply Qcle_refl.
    + intros j y Hjlt Hj. apply lookup_app_Some in Hj as [Hj|[Hge _]]; [|lia].
      apply Qcle_lt_trans with mp; eauto.
    + apply lookup_app_l_Some, Hmi.
    + intros j y Hj. apply lookup_app_Some in Hj as [Hj|[_ Hj]]; [eauto|].
      apply list_lookup_singleton_Some in Hj as [_ <-]. by apply Qcnot_lt_le.
    + intros j y Hjlt Hj. apply lookup_app_Some in Hj as [Hj|[Hge _]]; [eauto|].
      apply lookup_lt_Some in Hmi. lia.
Qed.

Lemma argmin_scan_first_min (a pre : list Qc) (mp : Qc) (mi : nat) :
  pre !! mi = Some mp →
  (∀ j x, pre !! j = Some x → mp ≤ x) →
  (∀ j x, (j < mi)%nat → pre !! j = Some x → mp < x) →
  first_min_at (pre ++ a) (np.argmin_scan mp mi (length pre) a).
Proof.
  revert pre mp mi. induction a as [|x a IH]; intros pre mp mi Hmi Hle Hlt; simpl.
  - rewrite app_nil_r. by exists mp.
  - replace (pre ++ x :: a) with ((pre ++ [x]) ++ a) by by rewrite <-app_assoc.
    replace (S (length pre)) with (length (pre ++ [x]))
      by (rewrite length_app; simpl; lia).
    destruct (decide (x < mp)) as [Hbig|Hsmall]; apply IH.
    + by rewrite lookup_app_r, Nat.sub_diag.
    + intros j y Hj. apply lookup_app_Some in Hj as [Hj|[_ Hj]].
      * apply Qclt_le_weak, Qclt_le_trans with mp; eauto.
      * apply list_lookup_singleton_Some in Hj as [_ <-]. apply Qcle_refl.
    + intros j y Hjlt Hj. apply lookup_app_Some in Hj as [Hj|[Hge _]]; [|lia].
      apply Qclt_le_trans with mp; eauto.
    + apply lookup_app_l_Some, Hmi.
    + intros j y Hj. apply lookup_app_Some in Hj as [Hj|[_ Hj]]; [eauto|].
      apply list_lookup_singleton_Some in Hj as [_ <-]. by apply Qcnot_lt_le.
    + intros j y Hjlt Hj. apply lookup_app_Some in Hj as [Hj|[Hge _]]; [eauto|].
      apply lookup_lt_Some in Hmi. lia.
Qed.

Lemma first_max_at_lt (l : list Qc) (p : nat) :
  first_max_at l p → (p < length l)%nat.
Proof. intros (m & Hm & _). by apply lookup_lt_Some in Hm. Qed.

Lemma first_min_at_lt (l : list Qc) (p : nat) :
  first_min_at l p → (p < length l)%nat.
Proof. intros (m & Hm & _). by apply lookup_lt_Some in Hm. Qed.

Lemma argmax_first_max (a : list Qc) :
  (0 < length a)%nat → ∃ p, np.argmax a = Ok p ∧ first_max_at a p.
Proof.
  destruct a as [|x a]; simpl; [lia|]. intros _.
  eexists; split; [done|].
  apply (argmax_scan_first_max a [x] x 0); [done| |intros; lia].
  intros j y Hj. apply list_lookup_singleton_Some in Hj as [_ <-]. apply Qcle_refl.
Qed.

Lemma argmin_first_min (a : list Qc) :
  (0 < length a)%nat → ∃ p, np.argmin a = Ok p ∧ first_min_at a p.
Proof.
  destruct a as [|x a]; simpl; [lia|]. intros _.
  eexists; split; [done|].
  apply (argmin_scan_first_min a [x] x 0); [done| |intros; lia].
  intros j y Hj. apply list_lookup_singleton_Some in Hj as [_ <-]. apply Qcle_refl.
Qed.

Lemma getitem_Ok (a : list Qc) (i : nat) (x : Qc) :
  a !! i = Some x → np.getitem a i = Ok x.
Proof. unfold np.getitem. by intros ->. Qed.

(** ** Event detector *)

(** What the detector computes on a series with at least one slope, shared
    by the statements below. *)
Lemma detect_heel_toe_run (force time : list Qc) :
  (2 ≤ length force)%nat →
  length time = length force →
  ∃ h t ht tt,
    detect_heel_toe force time = Ok (h + 1, t + 1, ht, tt)%nat
    ∧ first_max_at (np.diff force) h
    ∧ first_min_at (np.diff force) t
    ∧ time !! (h + 1)%nat = Some ht
    ∧ time !! (t + 1)%nat = Some tt.
Proof.
  intros HN Hlen. unfold detect_heel_toe.
  assert (0 < length (np.diff force))%nat as Hpos by (rewrite diff_length; lia).
  destruct (argmax_first_max _ Hpos) as (h & -> & Hh).
  destruct (argmin_first_min _ Hpos) as (t & -> & Ht).
  pose proof (first_max_at_lt _ _ Hh) as Hhlt.
  pose proof (first_min_at_lt _ _ Ht) as Htlt.
  rewrite diff_length in Hhlt, Htlt.
  destruct (lookup_lt_is_Some_2 time (h + 1)) as [ht Hht]; [lia|].
  destruct (lookup_lt_is_Some_2 time (t + 1)) as [tt Htt]; [lia|].
  exists h, t, ht, tt. simpl.
  rewrite (getitem_Ok _ _ _ Hht). simpl.
  by rewrite (getitem_Ok _ _ _ Htt).
Qed.

(** C1. For a force series of length N ≥ 2 and a time series of the same
    length the detector returns: the slope sequence is the sequence of
    first differences; the heel-strike index is the first position of its
    maximum plus one, the toe-off index the first position of its minimum
    plus one, and the two timestamps are the time series read at these
    indices. *)
Theorem detect_heel_toe_events (force time : list Qc) :
  (2 ≤ length force)%nat →
  length time = length force →
  (∀ i x y, force !! i = Some x → force !! S i = Some y →
            np.diff force !! i = Some (y - x))
  ∧ ∃ h t ht tt,
      detect_heel_toe force time = Ok (h + 1, t + 1, ht, tt)%nat
      ∧ first_max_at (np.diff force) h
      ∧ first_min_at (np.diff force) t
      ∧ time !! (h + 1)%nat = Some ht
      ∧ time !! (t + 1)%nat = Some tt.
Proof.
  intros HN Hlen. split.
  - intros i x y. apply diff_lookup.
  - by apply detect_heel_toe_run.
Qed.

Lemma detect_heel_toe_events_witness :
  (∀ i x y, floats [0; 1; 5; 5; 9; 2; -5; -5]%Z !! i = Some x →
            floats [0; 1; 5; 5; 9; 2; -5; -5]%Z !! S i = Some y →
            np.diff (floats [0; 1; 5; 5; 9; 2; -5; -5]%Z) !! i = Some (y - x))
  ∧ ∃ h t ht tt,
      detect_heel_toe (floats [0; 1; 5; 5; 9; 2; -5; -5]%Z)
                      (floats [10; 11; 12; 13; 14; 15; 16; 17]%Z)
      = Ok (h + 1, t + 1, ht, tt)%nat
      ∧ first_max_at (np.diff (floats [0; 1; 5; 5; 9; 2; -5; -5]%Z)) h
      ∧ first_min_at (np.diff (floats [0; 1; 5; 5; 9; 2; -5; -5]%Z)) t
      ∧ floats [10; 11; 12; 13; 14; 15; 16; 17]%Z !! (h + 1)%nat = Some ht
      ∧ floats [10; 11; 12; 13; 14; 15; 16; 17]%Z !! (t + 1)%nat = Some tt.
Proof.
  apply (detect_heel_toe_events (floats [0; 1; 5; 5; 9; 2; -5; -5]%Z)
                                (floats [10; 11; 12; 13; 14; 15; 16; 17]%Z)).
  - simpl. lia.
  - reflexivity.
Defined.

(** A tie on both extremes: the slopes are [4; 4; -7; -7] and the first
    position of each extreme wins. *)
Example detect_heel_toe_tie :
  detect_heel_toe (floats [0; 4; 8; 1; -6]%Z) (floats [0; 1; 2; 3; 4]%Z)
  = Ok (1, 3, Qc_of_Z 1, Qc_of_Z 3)%nat.
Proof. reflexivity. Qed.

(** C5 as stated fails: on a one-sample force series the detector raises
    NumPy's [ValueError], not [InsufficientDataError]. *)
Lemma detect_heel_toe_short_not_insufficient_data :
  detect_heel_toe (floats [5]%Z) (floats [0]%Z) = Raise ValueError
  ∧ ¬ raises (detect_heel_toe (floats [5]%Z) (floats [0]%Z)) InsufficientDataError.
Proof. split; [reflexivity|]. unfold raises. simpl. discriminate. Qed.

(** C5, amended. On a force series with fewer than two samples the
    detector fails whatever the time series: the slope sequence is empty
    and [np.argmax] raises [ValueError] before anything is read. *)
Theorem detect_heel_toe_short (force time : list Qc) :
  (length force < 2)%nat →
  np.diff force = [] ∧ raises (detect_heel_toe force time) ValueError.
Proof.
  intros HN. destruct force as [|x [|y force]]; simpl in HN; try lia; done.
Qed.

Lemma detect_heel_toe_short_witness :
  np.diff (floats [5]%Z) = []
  ∧ raises (detect_heel_toe (floats [5]%Z) (floats [0; 1]%Z)) ValueError.
Proof. apply (detect_heel_toe_short (floats [5]%Z) (floats [0; 1]%Z)). simpl. lia. Defined.

(** C8 as stated fails: two force series that differ in magnitude at the
    heel-strike index give the very same result, so the result does not
    carry the force magnitude. *)
Lemma detect_heel_toe_result_without_force :
  detect_heel_toe (floats [0; 1; 0]%Z) (floats [0; 1; 2]%Z)
  = Ok (1, 2, Qc_of_Z 1, Qc_of_Z 2)%nat
  ∧ detect_heel_toe (floats [0; 2; 0]%Z) (floats [0; 1; 2]%Z)
    = Ok (1, 2, Qc_of_Z 1, Qc_of_Z 2)%nat
  ∧ floats [0; 1; 0]%Z !! 1%nat = Some (Qc_of_Z 1)
  ∧ floats [0; 2; 0]%Z !! 1%nat = Some (Qc_of_Z 2)
  ∧ Qc_of_Z 1 ≠ Qc_of_Z 2.
Proof. repeat split; try reflexivity. discriminate. Qed.

(** C8, amended. The result is the four-tuple of the docstring, the two
    indices and the time series read at them, and nothing else; the force
    series can be read at both indices, which is how the caller obtains
    the magnitudes. *)
Theorem detect_heel_toe_result (force time : list Qc) :
  (2 ≤ length force)%nat →
  length time = length force →
  ∃ heel_idx toe_idx heel_time toe_time,
    detect_heel_toe force time = Ok (heel_idx, toe_idx, heel_time, toe_time)
    ∧ np.getitem time heel_idx = Ok heel_time
    ∧ np.getitem time toe_idx = Ok toe_time
    ∧ returns (np.getitem force heel_idx)
    ∧ returns (np.getitem force toe_idx).
Proof.
  intros HN Hlen.
  destruct (detect_heel_toe_run force time HN Hlen)
    as (h & t & ht & tt & Hrun & Hh & Ht & Hht & Htt).
  apply first_max_at_lt in Hh. apply first_min_at_lt in Ht.
  rewrite diff_length in Hh, Ht.
  exists (h + 1)%nat, (t + 1)%nat, ht, tt.
  split; [done|]. split; [by apply getitem_Ok|]. split; [by apply getitem_Ok|].
  split.
  - destruct (lookup_lt_is_Some_2 force (h + 1)) as [x Hx]; [lia|].
    exists x. by apply getitem_Ok.
  - destruct (lookup_lt_is_Some_2 force (t + 1)) as [x Hx]; [lia|].
    exists x. by apply getitem_Ok.
Qed.

Lemma detect_heel_toe_result_witness :
  ∃ heel_idx toe_idx heel_time toe_time,
    detect_heel_toe (floats [0; 1; 5; 2; 2; -7]%Z) (floats [10; 11; 12; 13; 14; 15]%Z)
    = Ok (heel_idx, toe_idx, heel_time, toe_time)
    ∧ np.getitem (floats [10; 11; 12; 13; 14; 15]%Z) heel_idx = Ok heel_time
    ∧ np.getitem (floats [10; 11; 12; 13; 14; 15]%Z) toe_idx = Ok toe_time
    ∧ returns (np.getitem (floats [0; 1; 5; 2; 2; -7]%Z) heel_idx)
    ∧ returns (np.getitem (floats [0; 1; 5; 2; 2; -7]%Z) toe_idx).
Proof.
  apply (detect_heel_toe_result (floats [0; 1; 5; 2; 2; -7]%Z)
                                (floats [10; 11; 12; 13; 14; 15]%Z)).
  - simpl. lia.
  - reflexivity.
Defined.

(** C10. For a force series of length N ≥ 2 and a time series of length N
    both returned indices lie in [1, N-1], so the time series and the
    force series can be read at them; for N = 2 both indices are 1 and the
    two events carry the same timestamp. *)
Theorem detect_heel_toe_in_bounds (force time : list Qc) :
  (2 ≤ length force)%nat →
  length time = length force →
  ∃ heel_idx toe_idx heel_time toe_time,
    detect_heel_toe force time = Ok (heel_idx, toe_idx, heel_time, toe_time)
    ∧ (1 ≤ heel_idx ≤ length force - 1)%nat
    ∧ (1 ≤ toe_idx ≤ length force - 1)%nat
    ∧ time !! heel_idx = Some heel_time
    ∧ time !! toe_idx = Some toe_time
    ∧ is_Some (force !! heel_idx)
    ∧ is_Some (force !! toe_idx)
    ∧ (length force = 2%nat →
       heel_idx = 1%nat ∧ toe_idx = 1%nat ∧ heel_time = toe_time).
Proof.
  intros HN Hlen.
  destruct (detect_heel_toe_run force time HN Hlen)
    as (h & t & ht & tt & Hrun & Hh & Ht & Hht & Htt).
  apply first_max_at_lt in Hh. apply first_min_at_lt in Ht.
  rewrite diff_length in Hh, Ht.
  exists (h + 1)%nat, (t + 1)%nat, ht, tt.
  split_and!; try done; try lia.
  - apply lookup_lt_is_Some_2. lia.
  - apply lookup_lt_is_Some_2. lia.
  - intros H2. assert (h = 0%nat) as -> by lia. assert (t = 0%nat) as -> by lia.
    simpl in Hht, Htt. split_and!; try done. congruence.
Qed.

Lemma detect_heel_toe_in_bounds_witness :
  ∃ heel_idx toe_idx heel_time toe_time,
    detect_heel_toe (floats [3; 8]%Z) (floats [20; 21]%Z)
    = Ok (heel_idx, toe_idx, heel_time, toe_time)
    ∧ (1 ≤ heel_idx ≤ length (floats [3; 8]%Z) - 1)%nat
    ∧ (1 ≤ toe_idx ≤ length (floats [3; 8]%Z) - 1)%nat
    ∧ floats [20; 21]%Z !! heel_idx = Some heel_time
    ∧ floats [20; 21]%Z !! toe_idx = Some toe_time
    ∧ is_Some (floats [3; 8]%Z !! heel_idx)
    ∧ is_Some (floats [3; 8]%Z !! toe_idx)
    ∧ (length (floats [3; 8]%Z) = 2%nat →
       heel_idx = 1%nat ∧ toe_idx = 1%nat ∧ heel_time = toe_time).
Proof.
  apply (detect_heel_toe_in_bounds (floats [3; 8]%Z) (floats [20; 21]%Z)).
  - simpl. lia.
  - reflexivity.
Defined.

(** ** Sampling-rate estimator *)



Lemma Qc_of_nat_pos (n : nat) : (0 < n)%nat → 0 < Qc_of_Z (Z.of_nat n).
Proof.
  intros Hn. rewrite <-Z2Qc_inj_0.
  apply (proj1 (Z2Qc_inj_lt 0 (Z.of_nat n))). lia.
Qed.

Lemma Qcinv_neg (x : Qc) : x < 0 → 1 / x < 0.
Proof.
  intros Hx. apply Qcnot_le_lt. intros Hinv.
  assert (x ≠ 0) as Hx0 by (by apply Qclt_not_eq).
  pose proof (Qcmult_le_compat_r x 0 (1 / x) (Qclt_le_weak _ _ Hx) Hinv) as Hle.
  rewrite Qcmult_div_r, Qcmult_0_l in Hle by done.
  by apply Qcle_not_lt in Hle.
Qed.

Example compute_sampling_rate_half_hertz :
  compute_sampling_rate (floats [0; 1; 3; 4; 8]%Z) = Ok (fin (Q2Qc (1 # 2))).
Proof. by apply (f_equal Ok), (f_equal fin), Qc_is_canon. Qed.




(** ** Sums and convolution *)

Lemma sum_app (l k : list Qc) : np.sum (l ++ k) = np.sum l + np.sum k.
Proof.
  induction l as [|x l IH]; simpl.
  - by rewrite Qcplus_0_l.
  - by rewrite IH, Qcplus_assoc.
Qed.

Lemma sum_map_scale {A} (h : A → Qc) (c : Qc) (l : list A) :
  np.sum (map (λ m, h m * c) l) = np.sum (map h l) * c.
Proof.
  induction l as [|x l IH]; simpl.
  - by rewrite Qcmult_0_l.
  - by rewrite IH, Qcmult_plus_distr_l.
Qed.

(** Summing over [0 .. n-1] downwards or upwards gives the same total. *)
Lemma sum_seq_reverse (g : nat → Qc) (n : nat) :
  np.sum (map g (seq 0 n)) = np.sum (map (λ t, g (n - 1 - t)%nat) (seq 0 n)).
Proof.
  induction n as [|n IH]; [done|].
  rewrite seq_S at 1. rewrite map_app, sum_app. simpl.
  rewrite Qcplus_0_r, Qcplus_comm. f_equal.
  - f_equal. lia.
  - rewrite IH, <-seq_shift, map_map. f_equal.
    apply map_ext_in. intros t _. f_equal. lia.
Qed.

Lemma imap_replicate {A B} (f : nat → A → B) (n : nat) (c : A) :
  imap f (replicate n c) = map (λ m, f m c) (seq 0 n).
Proof.
  apply list_eq. intros i.
  rewrite list_lookup_imap, list_lookup_fmap.
  destruct (decide (i < n)%nat) as [Hi|Hi].
  - by rewrite lookup_replicate_2, lookup_seq_lt.
  - rewrite (proj1 (lookup_replicate_None n c i)), lookup_seq_ge by lia. done.
Qed.

Lemma convolve_length (a v out : list Qc) :
  np.convolve a v = Ok out → length out = (length a `max` length v)%nat.
Proof.
  unfold np.convolve.
  destruct (decide (length a < length v)%nat);
    repeat case_decide; intros [= <-];
    rewrite length_map, length_seq; lia.
Qed.

Lemma convolve_returns (a v : list Qc) :
  (0 < length a)%nat → (0 < length v)%nat → returns (np.convolve a v).
Proof.
  intros Ha Hv. unfold np.convolve, returns.
  destruct (decide (length a < length v)%nat);
    repeat case_decide; try lia; eauto.
Qed.

(** ** Moving-average filter *)

Lemma moving_average_kernel (signal : list Qc) (W : Z) :
  (0 ≤ W)%Z →
  moving_average signal W
  = np.convolve signal (replicate (Z.to_nat W) (1 / Qc_of_Z W)).
Proof.
  intros HW. unfold moving_average, np.ones, np.divide.
  destruct (decide (W < 0)%Z); [lia|]. simpl.
  by rewrite fmap_replicate.
Qed.

Lemma moving_average_length (signal : list Qc) (W : Z) :
  (1 ≤ length signal)%nat → (1 ≤ W)%Z →
  ∃ out, moving_average signal W = Ok out
         ∧ length out = (length signal `max` Z.to_nat W)%nat.
Proof.
  intros HN HW. rewrite moving_average_kernel by lia.
  destruct (convolve_returns signal (replicate (Z.to_nat W) (1 / Qc_of_Z W)))
    as [out Hout]; [lia|rewrite length_replicate; lia|].
  exists out. split; [done|].
  apply convolve_length in Hout. by rewrite length_replicate in Hout.
Qed.

Lemma conv_at_replicate (a : list Qc) (n : nat) (c : Qc) (p : nat) :
  np.conv_at a (replicate n c) p
  = np.sum (map (λ m, if decide (m ≤ p)%nat
                      then default 0 (a !! (p - m)%nat) else 0) (seq 0 n)) * c.
Proof.
  unfold np.conv_at. rewrite imap_replicate, <-sum_map_scale. f_equal.
  apply map_ext. intros m. case_decide; [done|by rewrite Qcmult_0_l].
Qed.

(** With a window no longer than the series the signal stays the first
    argument of the convolution, and sample [i] of the output is sample
    [i + (W - 1 - W/2)] of the full convolution. *)
Lemma moving_average_lookup (signal : list Qc) (W : Z) :
  (1 ≤ W)%Z → (W ≤ Z.of_nat (length signal))%Z →
  ∃ out, moving_average signal W = Ok out
    ∧ length out = length signal
    ∧ ∀ i, (i < length signal)%nat →
        out !! i = Some (np.conv_at signal (replicate (Z.to_nat W) (1 / Qc_of_Z W))
                           (i + (Z.to_nat W - 1 - Z.to_nat W / 2))%nat).
Proof.
  intros HW HN. rewrite moving_average_kernel by lia.
  unfold np.convolve. rewrite length_replicate.
  destruct (decide (length signal < Z.to_nat W)%nat); [lia|].
  rewrite length_replicate.
  destruct (decide (length signal = 0%nat)); [lia|].
  destruct (decide (Z.to_nat W = 0%nat)); [lia|].
  eexists. split; [done|]. split.
  - by rewrite length_map, length_seq.
  - intros i Hi. by rewrite list_lookup_fmap, lookup_seq_lt.
Qed.

Lemma conv_at_centered (signal : list Qc) (W : Z) (i : nat) :
  (1 ≤ W)%Z →
  np.conv_at signal (replicate (Z.to_nat W) (1 / Qc_of_Z W))
             (i + (Z.to_nat W - 1 - Z.to_nat W / 2))%nat
  = centered_average signal W i.
Proof.
  intros HW. rewrite conv_at_replicate. unfold centered_average, seqZ, Qcdiv.
  rewrite Qcmult_1_l. f_equal.
  rewrite sum_seq_reverse, map_map. f_equal.
  apply map_ext_in. intros t Ht%in_seq.
  assert (Z.of_nat (Z.to_nat W / 2) = W / 2)%Z as Hhalf.
  { rewrite Nat2Z.inj_div, Z2Nat.id by lia. done. }
  assert (Z.to_nat W / 2 ≤ Z.to_nat W - 1)%nat as Hk.
  { pose proof (Nat.div_lt (Z.to_nat W) 2). lia. }
  revert Hhalf Hk. generalize (Z.to_nat W / 2)%nat. intros k Hhalf Hk.
  unfold sample_at. rewrite <-Hhalf.
  repeat case_decide; try lia; try done.
  do 2 f_equal. lia.
Qed.

(** C4, at the failing input. On a two-sample series the window of three
    gives three samples, where the filter is to return as many samples as
    it is given: [np.convolve] in mode ["same"] keeps the length of the
    longer argument, which is the kernel as soon as the window is longer
    than the series. *)
Theorem moving_average_window_three_on_two_samples :
  ∃ out, moving_average (floats [1; 2]%Z) 3 = Ok out
         ∧ length out = 3%nat
         ∧ length (floats [1; 2]%Z) = 2%nat.
Proof. eexists. split_and!; reflexivity. Qed.

(** With a window no longer than the series the filter keeps the length,
    and in exact arithmetic sample [i] is the sum of the series over the
    [W] positions [i - W/2 .. i - W/2 + W - 1] divided by [W]: positions
    outside the series add nothing and the divisor stays [W], so the
    samples near the boundary are attenuated partial averages.  (On
    float64 every sample is multiplied by the rounded weight [1/W] before
    the sum, which agrees up to rounding.) *)
Lemma moving_average_centered (signal : list Qc) (W : Z) :
  (1 ≤ W)%Z →
  (W ≤ Z.of_nat (length signal))%Z →
  ∃ out, moving_average signal W = Ok out
    ∧ length out = length signal
    ∧ ∀ i, (i < length signal)%nat →
        out !! i = Some (centered_average signal W i).
Proof.
  intros HW HWN.
  destruct (moving_average_lookup signal W HW HWN) as (out & Hout & Hlen & Hat).
  exists out. split_and!; [done..|].
  intros i Hi. by rewrite (Hat i Hi), conv_at_centered.
Qed.

(** The boundary samples of the series [1 .. 6] under a window of four:
    position 0 sees two samples, position 5 three; the divisor is four. *)
Example centered_average_boundary :
  centered_average (floats [1; 2; 3; 4; 5; 6]%Z) 4 0 = Q2Qc (3 # 4)
  ∧ centered_average (floats [1; 2; 3; 4; 5; 6]%Z) 4 5 = Q2Qc (15 # 4).
Proof. split; by_evaluation. Qed.

(** Outputs in the exact reading (float64 rounds the weight [1/W]). *)
Example moving_average_window_4 :
  moving_average (floats [1; 2; 3; 4; 5; 6]%Z) 4
  = Ok [Q2Qc (3 # 4); Q2Qc (3 # 2); Q2Qc (5 # 2); Q2Qc (7 # 2); Q2Qc (9 # 2);
        Q2Qc (15 # 4)].
Proof. by_evaluation. Qed.

Example moving_average_default_window :
  moving_average (floats [1; 2; 3]%Z) 3 = Ok [Qc_of_Z 1; Qc_of_Z 2; Q2Qc (5 # 3)].
Proof. by_evaluation. Qed.

Lemma conv_at_unit (a : list Qc) (k : nat) :
  np.conv_at a [1] k = default 0 (a !! k).
Proof.
  unfold np.conv_at. simpl. destruct (decide (0 ≤ k)%nat); [|lia].
  by rewrite Nat.sub_0_r, Qcmult_1_r, Qcplus_0_r.
Qed.

Lemma moving_average_identity (signal : list Qc) :
  (1 ≤ length signal)%nat → moving_average signal 1 = Ok signal.
Proof.
  intros HN. rewrite moving_average_kernel by lia.
  replace (1 / Qc_of_Z 1) with 1 by by apply Qc_is_canon.
  unfold np.convolve. simpl.
  destruct (decide (length signal < 1)%nat); [lia|]. simpl.
  destruct (decide (length signal = 0%nat)); [lia|]. f_equal.
  apply list_eq. intros i. rewrite list_lookup_fmap.
  destruct (decide (i < length signal)%nat) as [Hi|Hi].
  - rewrite lookup_seq_lt by done. simpl.
    rewrite Nat.add_0_r, conv_at_unit.
    by destruct (lookup_lt_is_Some_2 signal i Hi) as [x ->].
  - by rewrite lookup_seq_ge, lookup_ge_None_2 by lia.
Qed.

(** C7, at the failing input. With [W = 5 > 1] a three-sample series
    comes back with five samples, not three: again the window is longer
    than the series and mode ["same"] keeps the length of the kernel. *)
Theorem moving_average_length_not_preserved :
  ∃ out, moving_average (floats [3; 6; 9]%Z) 5 = Ok out
         ∧ length out = 5%nat
         ∧ length (floats [3; 6; 9]%Z) = 3%nat.
Proof. eexists. split_and!; reflexivity. Qed.

(** ** Zero-phase low-pass filter *)


Lemma two_ne_0 : (2 : Qc) ≠ 0.
Proof. discriminate. Qed.

Lemma half_pos (fs : Qc) : 0 < fs → 0 < fs / 2.
Proof. intros Hfs. apply Qcmult_pos_pos; [done|]. by apply Qcinv_pos. Qed.


Section lowpass.
Context `{SciPySignal}.

(** With a non-zero sampling rate the function raises nothing of its
    own: it hands the normalized cutoff to the design and the signal to
    the application, and its outcome is theirs. *)
Lemma butterworth_lowpass_run (signal : list Qc) (fs fc : Qc) (order : Z) :
  fs ≠ 0 →
  butterworth_lowpass signal fs fc order
  = butter order (py_min fc (c099 * (fs / 2)) / (fs / 2))
      ≫= λ ba, filtfilt ba signal.
Proof.
  intros Hfs. unfold butterworth_lowpass, float_div.
  destruct (decide ((2 : Qc) = 0)) as [H2|_]; [by destruct two_ne_0|]. simpl.
  destruct (decide (fs / 2 = 0)) as [Hn|_].
  { apply Qcmult_integral in Hn as [Hn|Hn]; [done|].
    apply (f_equal (Qcmult 2)) in Hn.
    rewrite Qcmult_inv_r, Qcmult_0_r in Hn by apply two_ne_0. done. }
  simpl. destruct (butter order _) as [ba|e]; simpl; [|done].
  by destruct (filtfilt ba signal).
Qed.


End lowpass.


(** The float64 reading of the low-pass filter: where an exception of the
    call comes from. *)
Section lowpass_f64.
Context `{f64.SciPySignal}.






End lowpass_f64.



(** The float64 reading at the edges: a subnormal positive rate whose half
    underflows to zero, the rate 3.0 whose normalized cutoff is one unit
    in the last place below 0.99, and a NumPy zero rate, which raises
    nothing of its own (the design receives NaN). *)
Example f64_lowpass_subnormal_rate :
  @f64.butterworth_lowpass f64.passthrough_signal []
    (f64.pyfloat 0x1p-1074%float) (f64.pyfloat 8%float) 4
  = Raise ZeroDivisionError.
Proof. reflexivity. Qed.

Example f64_lowpass_cutoff_rounded :
  (f64.value (f64.py_min (f64.pyfloat 8%float)
                (f64.pyfloat (f64.c099 * (3 / 2))))
   / (3 / 2))%float
  = 0x1.fae147ae147adp-1%float
  ∧ (0x1.fae147ae147adp-1 <? f64.c099)%float = true.
Proof. split; reflexivity. Qed.

Example f64_lowpass_numpy_zero_rate :
  ∃ Wn, @f64.butterworth_lowpass f64.passthrough_signal []
          (f64.npfloat 0%float) (f64.pyfloat 8%float) 4
        = @f64.butter f64.passthrough_signal 4 Wn
            ≫= (λ ba, @f64.filtfilt f64.passthrough_signal ba [])
        ∧ (Wn =? Wn)%float = false.
Proof. eexists. split; reflexivity. Qed.

(** On the stand-in, in the exact reading: a negative sampling rate is not
    refused (the clamp again gives 0.99 and the call completes), and a
    signal no longer than the padding fails in the application step. *)
Example butterworth_lowpass_negative_rate :
  @butterworth_lowpass passthrough_signal
    (floats (seqZ 0 16)) (Qc_of_Z (-100)) (Qc_of_Z 8) 4
  = Ok (floats (seqZ 0 16)).
Proof. by_evaluation. Qed.

Example butterworth_lowpass_short_signal :
  @butterworth_lowpass passthrough_signal
    (floats [0; 1; 4; 9; 4; 1; 0]%Z) (Qc_of_Z 100) (Qc_of_Z 60) 4
  = Raise ValueError.
Proof. by_evaluation. Qed.

(** ** The length of the filters' output *)

Lemma passthrough_filtfilt_shape (ba : list Qc * list Qc) (x out : list Qc) :
  @filtfilt passthrough_signal ba x = Ok out → length out = length x.
Proof. simpl. case_decide; by intros [= <-]. Qed.

(** C9, at the failing input. The moving average of a two-sample series
    with a window of four is a sequence of four samples, not of the
    input's length: again the window is longer than the series and mode
    ["same"] keeps the length of the kernel. *)
Theorem moving_average_window_four_on_two_samples :
  ∃ out, moving_average (floats [1; 2]%Z) 4 = Ok out
         ∧ length out = 4%nat
         ∧ length (floats [1; 2]%Z) = 2%nat.
Proof. eexists. split_and!; reflexivity. Qed.

(** * Further properties *)

(** ** Event detector: invariances *)

Lemma diff_offset (c : Qc) (a : list Qc) :
  np.diff (map (λ x, x + c) a) = np.diff a.
Proof.
  induction a as [|x [|y t] IH]; simpl in *; try done.
  rewrite IH. f_equal. ring.
Qed.

Lemma diff_scale (k : Qc) (a : list Qc) :
  np.diff (map (Qcmult k) a) = map (Qcmult k) (np.diff a).
Proof.
  induction a as [|x [|y t] IH]; simpl in *; try done.
  rewrite IH. f_equal. ring.
Qed.

Lemma diff_opp (a : list Qc) :
  np.diff (map Qcopp a) = map Qcopp (np.diff a).
Proof.
  induction a as [|x [|y t] IH]; simpl in *; try done.
  rewrite IH. f_equal. ring.
Qed.

Lemma Qcopp_lt_iff (x y : Qc) : - x < - y ↔ y < x.
Proof.
  rewrite (Qcplus_lt_mono_r (- x) (- y) (x + y)).
  replace (- x + (x + y)) with y by ring.
  by replace (- y + (x + y)) with x by ring.
Qed.

Lemma argmax_scan_scale (k mp : Qc) (mi i : nat) (a : list Qc) :
  0 < k →
  np.argmax_scan (k * mp) mi i (map (Qcmult k) a) = np.argmax_scan mp mi i a.
Proof.
  intros Hk. revert mp mi i. induction a as [|x a IH]; intros mp mi i; simpl; [done|].
  destruct (decide (mp < x)) as [Hlt|Hge];
    destruct (decide (k * mp < k * x)) as [Hlt'|Hge']; try by rewrite IH.
  - destruct Hge'. by apply Qcmult_lt_mono_pos_l.
  - destruct Hge. by apply (Qcmult_lt_mono_pos_l mp x k).
Qed.

Lemma argmin_scan_scale (k mp : Qc) (mi i : nat) (a : list Qc) :
  0 < k →
  np.argmin_scan (k * mp) mi i (map (Qcmult k) a) = np.argmin_scan mp mi i a.
Proof.
  intros Hk. revert mp mi i. induction a as [|x a IH]; intros mp mi i; simpl; [done|].
  destruct (decide (x < mp)) as [Hlt|Hge];
    destruct (decide (k * x < k * mp)) as [Hlt'|Hge']; try by rewrite IH.
  - destruct Hge'. by apply Qcmult_lt_mono_pos_l.
  - destruct Hge. by apply (Qcmult_lt_mono_pos_l x mp k).
Qed.

Lemma argmax_scan_opp (mp : Qc) (mi i : nat) (a : list Qc) :
  np.argmax_scan (- mp) mi i (map Qcopp a) = np.argmin_scan mp mi i a.
Proof.
  revert mp mi i. induction a as [|x a IH]; intros mp mi i; simpl; [done|].
  destruct (decide (x < mp)) as [Hlt|Hge];
    destruct (decide (- mp < - x)) as [Hlt'|Hge']; try by rewrite IH.
  - destruct Hge'. by apply Qcopp_lt_iff.
  - destruct Hge. by apply Qcopp_lt_iff.
Qed.

Lemma argmin_scan_opp (mp : Qc) (mi i : nat) (a : list Qc) :
  np.argmin_scan (- mp) mi i (map Qcopp a) = np.argmax_scan mp mi i a.
Proof.
  revert mp mi i. induction a as [|x a IH]; intros mp mi i; simpl; [done|].
  destruct (decide (mp < x)) as [Hlt|Hge];
    destruct (decide (- x < - mp)) as [Hlt'|Hge']; try by rewrite IH.
  - destruct Hge'. by apply Qcopp_lt_iff.
  - destruct Hge. by apply Qcopp_lt_iff.
Qed.

Lemma argmax_scale (k : Qc) (a : list Qc) :
  0 < k → np.argmax (map (Qcmult k) a) = np.argmax a.
Proof. intros Hk. destruct a as [|x a]; simpl; [done|]. by rewrite argmax_scan_scale. Qed.

Lemma argmin_scale (k : Qc) (a : list Qc) :
  0 < k → np.argmin (map (Qcmult k) a) = np.argmin a.
Proof. intros Hk. destruct a as [|x a]; simpl; [done|]. by rewrite argmin_scan_scale. Qed.

Lemma argmax_opp (a : list Qc) : np.argmax (map Qcopp a) = np.argmin a.
Proof. destruct a as [|x a]; simpl; [done|]. by rewrite argmax_scan_opp. Qed.

Lemma argmin_opp (a : list Qc) : np.argmin (map Qcopp a) = np.argmax a.
Proof. destruct a as [|x a]; simpl; [done|]. by rewrite argmin_scan_opp. Qed.

(** X1. In exact arithmetic, a constant offset added to every force
    sample (a sensor baseline) changes nothing in the detector's outcome,
    result or exception. *)
Theorem detect_heel_toe_offset_invariant (c : Qc) (force time : list Qc) :
  detect_heel_toe (map (λ x, x + c) force) time = detect_heel_toe force time.
Proof. unfold detect_heel_toe. by rewrite diff_offset. Qed.

(** X2. In exact arithmetic, multiplying every force sample by a positive
    gain changes nothing in the detector's outcome (on float64 the scaled
    differences are rounded anew, which can break or create ties). *)
Theorem detect_heel_toe_gain_invariant (k : Qc) (force time : list Qc) :
  0 < k →
  detect_heel_toe (map (Qcmult k) force) time = detect_heel_toe force time.
Proof.
  intros Hk. unfold detect_heel_toe.
  by rewrite diff_scale, argmax_scale, argmin_scale.
Qed.

Lemma detect_heel_toe_gain_invariant_witness :
  detect_heel_toe (map (Qcmult (Qc_of_Z 3)) (floats [0; 1; 5; 2; 2; -7]%Z))
                  (floats [10; 11; 12; 13; 14; 15]%Z)
  = detect_heel_toe (floats [0; 1; 5; 2; 2; -7]%Z) (floats [10; 11; 12; 13; 14; 15]%Z).
Proof.
  apply (detect_heel_toe_gain_invariant (Qc_of_Z 3)). reflexivity.
Defined.

(** X3. Negating the force signal exchanges the two events: the heel
    strike of the negated signal is the toe-off of the original and the
    other way round, and the call fails on the negated signal with the
    exception it fails with on the original. *)
Theorem detect_heel_toe_negated (force time : list Qc) :
  detect_heel_toe (map Qcopp force) time
  = detect_heel_toe force time ≫= λ r, Ok (swap_events r).
Proof.
  unfold detect_heel_toe. rewrite diff_opp, argmax_opp, argmin_opp.
  destruct (np.diff force) as [|s slope]; simpl; [done|].
  unfold np.getitem.
  by destruct (time !! (np.argmin_scan s 0 1 slope + 1)%nat),
              (time !! (np.argmax_scan s 0 1 slope + 1)%nat).
Qed.

(** ** Event detector: the time series and coinciding events *)

(** X4. With at least two force samples the only way the detector can
    fail is an [IndexError] on the time series: it returns exactly when
    the time series reaches past both event indices.  A time series at
    least as long as the force series is always enough, one with at most
    one timestamp never. *)
Theorem detect_heel_toe_time_length (force time : list Qc) :
  (2 ≤ length force)%nat →
  ∃ h t,
    np.argmax (np.diff force) = Ok h
    ∧ np.argmin (np.diff force) = Ok t
    ∧ (returns (detect_heel_toe force time) ↔ ((h `max` t) + 1 < length time)%nat)
    ∧ (raises (detect_heel_toe force time) IndexError
       ↔ (length time ≤ (h `max` t) + 1)%nat)
    ∧ ((length force ≤ length time)%nat → returns (detect_heel_toe force time))
    ∧ ((length time ≤ 1)%nat → raises (detect_heel_toe force time) IndexError).
Proof.
  intros HN.
  assert (0 < length (np.diff force))%nat as Hpos by (rewrite diff_length; lia).
  destruct (argmax_first_max _ Hpos) as (h & Hh & Hhmax).
  destruct (argmin_first_min _ Hpos) as (t & Ht & Htmin).
  apply first_max_at_lt in Hhmax. apply first_min_at_lt in Htmin.
  rewrite diff_length in Hhmax, Htmin.
  assert (returns (detect_heel_toe force time) ↔ ((h `max` t) + 1 < length time)%nat)
    as Hret.
  { unfold returns, detect_heel_toe, np.getitem. rewrite Hh, Ht. simpl.
    destruct (time !! (h + 1)%nat) as [ht|] eqn:Hht; simpl.
    - destruct (time !! (t + 1)%nat) as [tt|] eqn:Htt; simpl.
      + apply lookup_lt_Some in Hht, Htt. split; [lia|eauto].
      + apply lookup_ge_None in Htt. split; [by intros [? ?]|lia].
    - apply lookup_ge_None in Hht. split; [by intros [? ?]|lia]. }
  assert (raises (detect_heel_toe force time) IndexError
          ↔ (length time ≤ (h `max` t) + 1)%nat) as Hraise.
  { unfold raises, detect_heel_toe, np.getitem. rewrite Hh, Ht. simpl.
    destruct (time !! (h + 1)%nat) as [ht|] eqn:Hht; simpl.
    - destruct (time !! (t + 1)%nat) as [tt|] eqn:Htt; simpl.
      + apply lookup_lt_Some in Hht, Htt. split; [done|lia].
      + apply lookup_ge_None in Htt. split; [lia|done].
    - apply lookup_ge_None in Hht. split; [lia|done]. }
  exists h, t. split_and!; try done.
  - intros Hlen. apply Hret. lia.
  - intros Hlen. apply Hraise. lia.
Qed.

Lemma detect_heel_toe_time_length_witness :
  ∃ h t,
    np.argmax (np.diff (floats [0; 1; 5; 2; 2; -7]%Z)) = Ok h
    ∧ np.argmin (np.diff (floats [0; 1; 5; 2; 2; -7]%Z)) = Ok t
    ∧ (returns (detect_heel_toe (floats [0; 1; 5; 2; 2; -7]%Z) (floats [10; 11; 12]%Z))
       ↔ ((h `max` t) + 1 < length (floats [10; 11; 12]%Z))%nat)
    ∧ (raises (detect_heel_toe (floats [0; 1; 5; 2; 2; -7]%Z) (floats [10; 11; 12]%Z))
         IndexError
       ↔ (length (floats [10; 11; 12]%Z) ≤ (h `max` t) + 1)%nat)
    ∧ ((length (floats [0; 1; 5; 2; 2; -7]%Z) ≤ length (floats [10; 11; 12]%Z))%nat →
       returns (detect_heel_toe (floats [0; 1; 5; 2; 2; -7]%Z) (floats [10; 11; 12]%Z)))
    ∧ ((length (floats [10; 11; 12]%Z) ≤ 1)%nat →
       raises (detect_heel_toe (floats [0; 1; 5; 2; 2; -7]%Z) (floats [10; 11; 12]%Z))
         IndexError).
Proof.
  apply (detect_heel_toe_time_length (floats [0; 1; 5; 2; 2; -7]%Z)
                                     (floats [10; 11; 12]%Z)).
  simpl. lia.
Defined.

(** The heel strike is found inside a three-sample time series, the
    toe-off is not: the call fails. *)
Example detect_heel_toe_time_too_short :
  detect_heel_toe (floats [0; 1; 5; 2; 2; -7]%Z) (floats [10; 11; 12]%Z)
  = Raise IndexError.
Proof. reflexivity. Qed.

Lemma first_extremes_coincide (l : list Qc) (h t : nat) :
  first_max_at l h → first_min_at l t →
  (h = t ↔ all_equal l) ∧ (all_equal l → h = 0%nat ∧ t = 0%nat).
Proof.
  intros (M & HM & Hmax & Hfirst) (m & Hm & Hmin & Hfirst').
  assert (all_equal l → h = 0%nat ∧ t = 0%nat) as Hzero.
  { intros Heq. split.
    - destruct h as [|h]; [done|].
      destruct (lookup_lt_is_Some_2 l 0) as [x Hx];
        [apply lookup_lt_Some in HM; lia|].
      pose proof (Hfirst 0%nat x ltac:(lia) Hx) as Hlt.
      rewrite (Heq _ _ _ _ Hx HM) in Hlt. by apply Qclt_not_eq in Hlt.
    - destruct t as [|t]; [done|].
      destruct (lookup_lt_is_Some_2 l 0) as [x Hx];
        [apply lookup_lt_Some in Hm; lia|].
      pose proof (Hfirst' 0%nat x ltac:(lia) Hx) as Hlt.
      rewrite (Heq _ _ _ _ Hx Hm) in Hlt. by apply Qclt_not_eq in Hlt. }
  split; [|done]. split.
  - intros <- i j x y Hx Hy. rewrite HM in Hm. injection Hm as <-.
    trans M; [|symmetry]; apply Qcle_antisym; eauto.
  - intros Heq. destruct (Hzero Heq) as [-> ->]. done.
Qed.

(** X5. On aligned series with at least two samples the two events fall
    on the same index exactly when the force changes by the same amount
    at every step (a constant or perfectly linear force); the common
    index is then 1, the events sharing the timestamp [time[1]]. *)
Theorem detect_heel_toe_events_coincide (force time : list Qc) :
  (2 ≤ length force)%nat →
  length time = length force →
  ∃ heel_idx toe_idx heel_time toe_time,
    detect_heel_toe force time = Ok (heel_idx, toe_idx, heel_time, toe_time)
    ∧ (heel_idx = toe_idx ↔ all_equal (np.diff force))
    ∧ (all_equal (np.diff force) →
       heel_idx = 1%nat ∧ toe_idx = 1%nat
       ∧ time !! 1%nat = Some heel_time ∧ heel_time = toe_time).
Proof.
  intros HN Hlen.
  destruct (detect_heel_toe_run force time HN Hlen)
    as (h & t & ht & tt & Hrun & Hh & Ht & Hht & Htt).
  destruct (first_extremes_coincide _ h t Hh Ht) as [Hiff Hzero].
  exists (h + 1)%nat, (t + 1)%nat, ht, tt. split_and!; [done| |].
  - rewrite <-Hiff. lia.
  - intros Heq. destruct (Hzero Heq) as [-> ->]. simpl in *.
    split_and!; try done. congruence.
Qed.

Lemma detect_heel_toe_events_coincide_witness :
  ∃ heel_idx toe_idx heel_time toe_time,
    detect_heel_toe (floats [1; 3; 5; 7]%Z) (floats [0; 1; 2; 3]%Z)
    = Ok (heel_idx, toe_idx, heel_time, toe_time)
    ∧ (heel_idx = toe_idx ↔ all_equal (np.diff (floats [1; 3; 5; 7]%Z)))
    ∧ (all_equal (np.diff (floats [1; 3; 5; 7]%Z)) →
       heel_idx = 1%nat ∧ toe_idx = 1%nat
       ∧ floats [0; 1; 2; 3]%Z !! 1%nat = Some heel_time ∧ heel_time = toe_time).
Proof.
  apply (detect_heel_toe_events_coincide (floats [1; 3; 5; 7]%Z) (floats [0; 1; 2; 3]%Z)).
  - simpl. lia.
  - reflexivity.
Defined.

(** ** Sampling-rate estimator: what it depends on *)

(** The first differences telescope. *)
Lemma diff_sum (a : list Qc) (first lst : Qc) :
  a !! 0%nat = Some first → last a = Some lst →
  np.sum (np.diff a) = lst - first.
Proof.
  revert first. induction a as [|x [|y t] IH]; intros first Hfirst Hlast.
  - done.
  - simpl in *. simplify_eq. ring.
  - injection Hfirst as ->.
    change (np.sum (np.diff (first :: y :: t)))
      with ((y - first) + np.sum (np.diff (y :: t))).
    rewrite (IH y); [ring|done|done].
Qed.

Lemma mean_diff_endpoints (time : list Qc) (t0 tn : Qc) :
  (2 ≤ length time)%nat →
  time !! 0%nat = Some t0 → last time = Some tn →
  np.mean (np.diff time)
  = fin ((tn - t0) / Qc_of_Z (Z.of_nat (length time - 1))).
Proof.
  intros HN H0 Hn. unfold np.mean.
  rewrite (diff_sum time t0 tn H0 Hn), diff_length.
  destruct (np.diff time) eqn:Hd; [|done].
  apply (f_equal length) in Hd. rewrite diff_length in Hd. simpl in Hd. lia.
Qed.

Lemma sampling_rate_endpoints (time : list Qc) (t0 tn : Qc) :
  (2 ≤ length time)%nat →
  time !! 0%nat = Some t0 → last time = Some tn →
  compute_sampling_rate time
  = Ok (if decide (tn = t0) then inf
        else fin (Qc_of_Z (Z.of_nat (length time - 1)) / (tn - t0))).
Proof.
  intros HN H0 Hn. unfold compute_sampling_rate.
  rewrite (mean_diff_endpoints time t0 tn HN H0 Hn). simpl.
  assert (Qc_of_Z (Z.of_nat (length time - 1)) ≠ 0) as Hcount.
  { apply not_eq_sym, Qclt_not_eq, Qc_of_nat_pos. lia. }
  set (n := Qc_of_Z (Z.of_nat (length time - 1))) in *.
  destruct (decide (tn = t0)) as [->|Hne].
  - replace ((t0 - t0) / n) with 0 by (by field).
    by destruct (decide (0 = 0)).
  - assert (tn - t0 ≠ 0) as Hspan.
    { intros Hz. apply Hne. apply (Qcplus_inj_l (- t0)).
      replace (t0 + - t0) with 0 by ring. exact Hz. }
    destruct (decide ((tn - t0) / n = 0)) as [Hz|_].
    + apply Qcmult_integral in Hz as [Hz|Hz]; [done|].
      apply (f_equal (Qcmult n)) in Hz.
      rewrite Qcmult_inv_r, Qcmult_0_r in Hz by done.
      by destruct Q_apart_0_1.
    + do 2 f_equal. by field.
Qed.

(** X6. In exact arithmetic, with at least two timestamps the estimate
    depends only on the first timestamp, the last one and the number of
    samples (the differences telescope; on float64 each difference and
    each partial sum is rounded, so this holds up to rounding): it is
    [(N - 1) / (time[N-1] - time[0])], and an infinity when the two
    coincide; the timestamps in between play no role. *)
Theorem compute_sampling_rate_endpoints (time : list Qc) (t0 tn : Qc) :
  (2 ≤ length time)%nat →
  time !! 0%nat = Some t0 →
  last time = Some tn →
  compute_sampling_rate time
  = Ok (if decide (tn = t0) then inf
        else fin (Qc_of_Z (Z.of_nat (length time - 1)) / (tn - t0))).
Proof. apply sampling_rate_endpoints. Qed.

Lemma compute_sampling_rate_endpoints_witness :
  compute_sampling_rate (floats [0; 7; 2; 4]%Z)
  = Ok (if decide (Qc_of_Z 4 = Qc_of_Z 0) then inf
        else fin (Qc_of_Z (Z.of_nat (length (floats [0; 7; 2; 4]%Z) - 1))
                  / (Qc_of_Z 4 - Qc_of_Z 0))).
Proof.
  apply (compute_sampling_rate_endpoints (floats [0; 7; 2; 4]%Z) (Qc_of_Z 0) (Qc_of_Z 4)).
  - simpl. lia.
  - reflexivity.
  - reflexivity.
Defined.

(** X7. On fewer than two timestamps the estimator raises nothing and
    returns NaN: there is no difference to average. *)
Theorem compute_sampling_rate_short (time : list Qc) :
  (length time < 2)%nat → compute_sampling_rate time = Ok nan.
Proof. intros HN. destruct time as [|x [|y t]]; simpl in HN; try lia; done. Qed.

Lemma compute_sampling_rate_short_witness :
  compute_sampling_rate (floats [3]%Z) = Ok nan.
Proof. apply (compute_sampling_rate_short (floats [3]%Z)). simpl. lia. Defined.

Lemma uniform_grid_first (t0 h : Qc) (N : nat) :
  (1 ≤ N)%nat → uniform_grid t0 h N !! 0%nat = Some t0.
Proof.
  intros HN. unfold uniform_grid. rewrite list_lookup_fmap, lookup_seq_lt by lia.
  simpl. f_equal. change (Z.of_nat 0) with 0%Z. rewrite Z2Qc_inj_0. ring.
Qed.

Lemma uniform_grid_last (t0 h : Qc) (N : nat) :
  (1 ≤ N)%nat →
  last (uniform_grid t0 h N) = Some (t0 + Qc_of_Z (Z.of_nat (N - 1)) * h).
Proof.
  intros HN. unfold uniform_grid. rewrite last_lookup, length_map, length_seq.
  rewrite list_lookup_fmap, lookup_seq_lt by lia.
  simpl. do 4 f_equal. lia.
Qed.

(** X8. In exact arithmetic, on uniformly spaced timestamps [t0, t0 + h, ..., t0 + (N-1) h]
    with [N ≥ 2] and [h ≠ 0] the estimate is exactly [1 / h]. *)
Theorem compute_sampling_rate_uniform (t0 h : Qc) (N : nat) :
  (2 ≤ N)%nat →
  h ≠ 0 →
  compute_sampling_rate (uniform_grid t0 h N) = Ok (fin (1 / h)).
Proof.
  intros HN Hh.
  rewrite (sampling_rate_endpoints _ t0 (t0 + Qc_of_Z (Z.of_nat (N - 1)) * h)).
  - unfold uniform_grid. rewrite length_map, length_seq.
    assert (Qc_of_Z (Z.of_nat (N - 1)) ≠ 0) as Hcount.
    { apply not_eq_sym, Qclt_not_eq, Qc_of_nat_pos. lia. }
    set (n := Qc_of_Z (Z.of_nat (N - 1))) in *.
    destruct (decide (t0 + n * h = t0)) as [Hz|_].
    + destruct Hh. apply (Qcmult_integral_l n h Hcount).
      apply (Qcplus_inj_r t0). by rewrite Hz, Qcplus_0_r.
    + do 2 f_equal. replace (t0 + n * h - t0) with (n * h) by ring.
      field. by split.
  - unfold uniform_grid. rewrite length_map, length_seq. lia.
  - apply uniform_grid_first. lia.
  - apply uniform_grid_last. lia.
Qed.

Lemma compute_sampling_rate_uniform_witness :
  compute_sampling_rate (uniform_grid (Qc_of_Z 5) (Q2Qc (1 # 100)) 6)
  = Ok (fin (1 / Q2Qc (1 # 100))).
Proof.
  apply (compute_sampling_rate_uniform (Qc_of_Z 5) (Q2Qc (1 # 100)) 6).
  - lia.
  - discriminate.
Defined.

(** X9. In exact arithmetic, a clock offset added to every timestamp
    does not change the estimate (on float64 the shifted differences are
    rounded differently). *)
Theorem compute_sampling_rate_offset_invariant (c : Qc) (time : list Qc) :
  compute_sampling_rate (map (λ x, x + c) time) = compute_sampling_rate time.
Proof. unfold compute_sampling_rate. by rewrite diff_offset. Qed.

(** ** Moving-average filter: failure, interior samples, bounds *)

(** The outcome of the filter by window size and signal, the window an
    array NumPy can allocate. *)
Lemma moving_average_outcome (signal : list Qc) (W : Z) :
  (raises (moving_average signal W) ValueError ↔ (W ≤ 0)%Z ∨ signal = [])
  ∧ (returns (moving_average signal W) ↔ (1 ≤ W)%Z ∧ signal ≠ [])
  ∧ (∀ e, raises (moving_average signal W) e → e = ValueError).
Proof.
  destruct (decide (W < 0)%Z) as [Hneg|Hnonneg].
  { assert (moving_average signal W = Raise ValueError) as ->.
    { unfold moving_average, np.ones. by destruct (decide (W < 0)%Z). }
    unfold raises, returns. split_and!.
    - split; [intros _; left; lia|done].
    - split; [by intros [? ?]|lia].
    - by intros e [= <-]. }
  rewrite moving_average_kernel by lia.
  destruct (decide (W = 0%Z)) as [->|Hpos].
  { assert (np.convolve signal (replicate (Z.to_nat 0) (1 / Qc_of_Z 0))
            = Raise ValueError) as ->.
    { unfold np.convolve. simpl. destruct signal; simpl; [done|].
      by destruct (decide (S (length signal) < 0)%nat); [lia|]. }
    unfold raises, returns. split_and!.
    - split; [intros _; left; lia|done].
    - split; [by intros [? ?]|lia].
    - by intros e [= <-]. }
  destruct signal as [|x signal].
  { assert (np.convolve [] (replicate (Z.to_nat W) (1 / Qc_of_Z W))
            = Raise ValueError) as ->.
    { unfold np.convolve. rewrite length_replicate. simpl.
      destruct (decide (0 < Z.to_nat W)%nat); [|lia].
      rewrite length_replicate.
      by destruct (decide (Z.to_nat W = 0%nat)); [lia|]. }
    unfold raises, returns. split_and!.
    - split; [intros _; by right|done].
    - split; [by intros [? ?]|by intros [_ ?]].
    - by intros e [= <-]. }
  destruct (convolve_returns (x :: signal) (replicate (Z.to_nat W) (1 / Qc_of_Z W)))
    as [out ->]; [simpl; lia|rewrite length_replicate; lia|].
  unfold raises, returns. split_and!.
  - split; [done|]. intros [?|?]; [lia|done].
  - split; [intros _; split; [lia|done]|eauto].
  - by intros e.
Qed.

(** X10. For a window size that NumPy takes as a dimension and that is no
    larger than the series is long (so that the kernel is an array it can
    hold beside the signal), the filter raises [ValueError] exactly when
    the window size is not positive, returns exactly when it is at least
    one, and raises nothing else. *)
Theorem moving_average_fails_iff (signal : list Qc) (W : Z) :
  (- 2 ^ 63 ≤ W)%Z →
  (W ≤ Z.of_nat (length signal))%Z →
  (raises (moving_average signal W) ValueError ↔ (W ≤ 0)%Z)
  ∧ (returns (moving_average signal W) ↔ (1 ≤ W)%Z)
  ∧ (∀ e, raises (moving_average signal W) e → e = ValueError).
Proof.
  intros _ HWN.
  destruct (moving_average_outcome signal W) as (Hraise & Hret & Honly).
  split_and!; [| |done].
  - rewrite Hraise. split; [|by left].
    intros [? | ->]; [done|]. simpl in HWN. lia.
  - rewrite Hret. split; [by intros [? _]|].
    intros HW. split; [done|]. intros ->. simpl in HWN. lia.
Qed.

Lemma moving_average_fails_iff_witness :
  (raises (moving_average (floats [1; 2; 3]%Z) 0) ValueError ↔ (0 ≤ 0)%Z)
  ∧ (returns (moving_average (floats [1; 2; 3]%Z) 0) ↔ (1 ≤ 0)%Z)
  ∧ (∀ e, raises (moving_average (floats [1; 2; 3]%Z) 0) e → e = ValueError).
Proof.
  apply (moving_average_fails_iff (floats [1; 2; 3]%Z) 0).
  - vm_compute. discriminate.
  - vm_compute. discriminate.
Defined.

Lemma sample_at_window (signal : list Qc) (k n : nat) :
  (k + n ≤ length signal)%nat →
  map (sample_at signal) (seqZ (Z.of_nat k) (Z.of_nat n)) = take n (drop k signal).
Proof.
  intros Hfit. apply list_eq. intros i.
  rewrite list_lookup_fmap.
  destruct (decide (i < n)%nat) as [Hi|Hi].
  - rewrite lookup_seqZ_lt by lia. simpl.
    rewrite lookup_take_lt, lookup_drop by done.
    unfold sample_at. destruct (decide (0 ≤ Z.of_nat k + Z.of_nat i)%Z); [|lia].
    replace (Z.to_nat (Z.of_nat k + Z.of_nat i)) with (k + i)%nat by lia.
    by destruct (lookup_lt_is_Some_2 signal (k + i)) as [x ->]; [lia|].
  - rewrite lookup_seqZ_ge by lia. simpl.
    by rewrite lookup_take_ge by lia.
Qed.

(** X11. Away from the boundary the output is, in exact arithmetic, a
    true average: when the window around [i], positions
    [i - W/2 .. i - W/2 + W - 1], lies inside the series, [output[i]] is
    the sum of those [W] consecutive samples divided by [W] (on float64
    each sample is multiplied by the rounded [1/W] before the sum). *)
Theorem moving_average_interior (signal : list Qc) (W : Z) (i : nat) :
  (1 ≤ W)%Z →
  (W / 2 ≤ Z.of_nat i)%Z →
  (Z.of_nat i - W / 2 + W ≤ Z.of_nat (length signal))%Z →
  ∃ out, moving_average signal W = Ok out
    ∧ out !! i
      = Some (np.sum (take (Z.to_nat W) (drop (i - Z.to_nat (W / 2)) signal))
              / Qc_of_Z W).
Proof.
  intros HW Hleft Hright.
  assert (0 ≤ W / 2)%Z as Hhalf by (apply Z.div_pos; lia).
  assert (W / 2 < W)%Z as Hhalf' by (apply Z.div_lt; lia).
  destruct (moving_average_lookup signal W HW) as (out & Hout & _ & Hat); [lia|].
  exists out. split; [done|].
  rewrite Hat by lia. rewrite conv_at_centered by done.
  unfold centered_average. do 3 f_equal.
  rewrite <-(sample_at_window signal (i - Z.to_nat (W / 2)) (Z.to_nat W)) by lia.
  rewrite Z2Nat.id by lia. do 2 f_equal. lia.
Qed.

Lemma moving_average_interior_witness :
  ∃ out, moving_average (floats [1; 2; 3; 4; 5; 6]%Z) 4 = Ok out
    ∧ out !! 3%nat
      = Some (np.sum (take (Z.to_nat 4)
                        (drop (3 - Z.to_nat (4 / 2)) (floats [1; 2; 3; 4; 5; 6]%Z)))
              / Qc_of_Z 4).
Proof.
  apply (moving_average_interior (floats [1; 2; 3; 4; 5; 6]%Z) 4 3).
  - lia.
  - vm_compute. discriminate.
  - vm_compute. discriminate.
Defined.

Lemma Qc_of_nat_S (n : nat) :
  Qc_of_Z (Z.of_nat (S n)) = 1 + Qc_of_Z (Z.of_nat n).
Proof. by rewrite Nat2Z.inj_succ, <-Z.add_1_l, Z2Qc_inj_add, Z2Qc_inj_1. Qed.

Lemma Qc_of_nat_nonneg (n : nat) : 0 ≤ Qc_of_Z (Z.of_nat n).
Proof.
  rewrite <-Z2Qc_inj_0. apply (proj1 (Z2Qc_inj_le 0 (Z.of_nat n))). lia.
Qed.

(** A sum of [n] terms between [lo] and [hi] lies between [n * lo] and
    [n * hi]. *)
Lemma sum_bounds (lo hi : Qc) (l : list Qc) :
  Forall (λ x, lo ≤ x ≤ hi) l →
  Qc_of_Z (Z.of_nat (length l)) * lo ≤ np.sum l
  ≤ Qc_of_Z (Z.of_nat (length l)) * hi.
Proof.
  induction 1 as [|x l [Hlo Hhi] _ [IHlo IHhi]].
  - simpl. change (Z.of_nat 0) with 0%Z.
    rewrite Z2Qc_inj_0, !Qcmult_0_l. split; apply Qcle_refl.
  - change (np.sum (x :: l)) with (x + np.sum l).
    change (length (x :: l)) with (S (length l)).
    rewrite Qc_of_nat_S, !Qcmult_plus_distr_l, !Qcmult_1_l.
    split; by apply Qcplus_le_compat.
Qed.

Lemma scale_bounds (c lo hi x : Qc) :
  0 ≤ c → lo ≤ x ≤ hi → c * lo ≤ c * x ≤ c * hi.
Proof. intros Hc [Hlo Hhi]. split; by apply Qcmult_le_mono_nonneg_l. Qed.

(** Shrinking an interval around zero by a factor between 0 and 1 keeps
    it inside the interval. *)
Lemma shrink_bounds (r lo hi : Qc) :
  lo ≤ 0 → 0 ≤ hi → r ≤ 1 → lo ≤ r * lo ∧ r * hi ≤ hi.
Proof.
  intros Hlo Hhi Hr. split.
  - apply Qcopp_le_compat in Hlo. replace (- 0) with 0 in Hlo by ring.
    pose proof (Qcmult_le_mono_nonneg_r r 1 (- lo) Hlo Hr) as Hle.
    apply Qcopp_le_compat in Hle.
    replace (- (1 * - lo)) with lo in Hle by ring.
    by replace (- (r * - lo)) with (r * lo) in Hle by ring.
  - rewrite <-(Qcmult_1_l hi) at 2. by apply Qcmult_le_mono_nonneg_r.
Qed.

Lemma kernel_weight_pos (W : Z) : (1 ≤ W)%Z → 0 < 1 / Qc_of_Z W.
Proof.
  intros HW. unfold Qcdiv. rewrite Qcmult_1_l. apply Qcinv_pos.
  rewrite <-Z2Qc_inj_0. apply (proj1 (Z2Qc_inj_lt 0 W)). lia.
Qed.

Lemma kernel_weight_total (W : Z) : (1 ≤ W)%Z → Qc_of_Z W * (1 / Qc_of_Z W) = 1.
Proof.
  intros HW. apply Qcmult_div_r, not_eq_sym, Qclt_not_eq.
  rewrite <-Z2Qc_inj_0. apply (proj1 (Z2Qc_inj_lt 0 W)). lia.
Qed.

(** With a window longer than the series the kernel becomes the first
    argument of the convolution. *)
Lemma moving_average_lookup_long (signal : list Qc) (W : Z) :
  (1 ≤ length signal)%nat → (Z.of_nat (length signal) < W)%Z →
  moving_average signal W
  = Ok (map (λ k, np.conv_at (replicate (Z.to_nat W) (1 / Qc_of_Z W)) signal
                    (k + (length signal - 1 - length signal / 2))%nat)
            (seq 0 (Z.to_nat W))).
Proof.
  intros HN HW. rewrite moving_average_kernel by lia.
  unfold np.convolve. rewrite length_replicate.
  destruct (decide (length signal < Z.to_nat W)%nat); [|lia].
  rewrite length_replicate.
  destruct (decide (Z.to_nat W = 0%nat)); [lia|].
  by destruct (decide (length signal = 0%nat)); [lia|].
Qed.

Lemma conv_at_kernel_first_bounds (signal : list Qc) (n : nat) (c lo hi : Qc) (p : nat) :
  0 ≤ c → lo ≤ 0 → 0 ≤ hi →
  Forall (λ x, lo ≤ x ≤ hi) signal →
  Qc_of_Z (Z.of_nat (length signal)) * (c * lo)
  ≤ np.conv_at (replicate n c) signal p
  ≤ Qc_of_Z (Z.of_nat (length signal)) * (c * hi).
Proof.
  intros Hc Hlo Hhi Hall. unfold np.conv_at.
  set (f := λ (m : nat) (vm : Qc),
         if decide (m ≤ p)%nat
         then default 0 (replicate n c !! (p - m)%nat) * vm else 0).
  rewrite <-(length_imap f signal).
  apply sum_bounds, Forall_lookup. intros m y Hy.
  rewrite list_lookup_imap in Hy.
  destruct (signal !! m) as [vm|] eqn:Hvm; [|done]. injection Hy as <-.
  pose proof (proj1 (Forall_lookup _ _) Hall m vm Hvm) as Hvmb.
  assert (c * lo ≤ 0 ≤ c * hi) as Hzero.
  { rewrite <-(Qcmult_0_r c). by apply scale_bounds. }
  unfold f. case_decide; [|done].
  destruct (replicate n c !! (p - m)%nat) as [k|] eqn:Hk; simpl.
  - apply lookup_replicate in Hk as [-> _]. by apply scale_bounds.
  - by rewrite Qcmult_0_l.
Qed.

Lemma conv_at_signal_first_bounds (signal : list Qc) (n : nat) (c lo hi : Qc) (p : nat) :
  0 ≤ c → lo ≤ 0 → 0 ≤ hi →
  Forall (λ x, lo ≤ x ≤ hi) signal →
  Qc_of_Z (Z.of_nat n) * lo * c
  ≤ np.conv_at signal (replicate n c) p
  ≤ Qc_of_Z (Z.of_nat n) * hi * c.
Proof.
  intros Hc Hlo Hhi Hall. rewrite conv_at_replicate.
  set (g := λ m : nat,
         if decide (m ≤ p)%nat then default 0 (signal !! (p - m)%nat) else 0).
  assert (Qc_of_Z (Z.of_nat (length (map g (seq 0 n)))) * lo
          ≤ np.sum (map g (seq 0 n))
          ≤ Qc_of_Z (Z.of_nat (length (map g (seq 0 n)))) * hi) as [Hl Hh].
  { apply sum_bounds, Forall_lookup. intros i y Hy.
    rewrite list_lookup_fmap in Hy.
    destruct (seq 0 n !! i) as [m|]; [|done]. injection Hy as <-.
    unfold g. case_decide; [|done].
    destruct (signal !! (p - m)%nat) as [x|] eqn:Hx; simpl; [|done].
    exact (proj1 (Forall_lookup _ _) Hall _ _ Hx). }
  rewrite length_map, length_seq in Hl, Hh.
  split; by apply Qcmult_le_mono_nonneg_r.
Qed.

(** In exact arithmetic the output stays in a range around zero that
    holds the samples, whatever the window size. *)
Lemma moving_average_range (signal : list Qc) (W : Z) (lo hi : Qc) :
  (1 ≤ length signal)%nat →
  (1 ≤ W)%Z →
  lo ≤ 0 → 0 ≤ hi →
  Forall (λ x, lo ≤ x ≤ hi) signal →
  ∃ out, moving_average signal W = Ok out ∧ Forall (λ y, lo ≤ y ≤ hi) out.
Proof.
  intros HN HW Hlo Hhi Hall.
  pose proof (kernel_weight_pos W HW) as Hc.
  pose proof (kernel_weight_total W HW) as Htotal.
  destruct (decide (W ≤ Z.of_nat (length signal))%Z) as [Hfit|Hlong].
  - destruct (moving_average_lookup signal W HW Hfit) as (out & Hout & Hlen & Hat).
    exists out. split; [done|].
    apply Forall_lookup. intros i y Hy.
    assert (i < length signal)%nat as Hi by (apply lookup_lt_Some in Hy; lia).
    rewrite (Hat i Hi) in Hy. injection Hy as <-.
    destruct (conv_at_signal_first_bounds signal (Z.to_nat W) (1 / Qc_of_Z W)
                lo hi (i + (Z.to_nat W - 1 - Z.to_nat W / 2))%nat) as [Hl Hh];
      [by apply Qclt_le_weak|done..|].
    rewrite Z2Nat.id in Hl, Hh by lia.
    replace (Qc_of_Z W * lo * (1 / Qc_of_Z W))
      with (Qc_of_Z W * (1 / Qc_of_Z W) * lo) in Hl by ring.
    replace (Qc_of_Z W * hi * (1 / Qc_of_Z W))
      with (Qc_of_Z W * (1 / Qc_of_Z W) * hi) in Hh by ring.
    by rewrite Htotal, Qcmult_1_l in Hl, Hh.
  - rewrite moving_average_lookup_long by lia.
    eexists. split; [done|].
    apply Forall_lookup. intros k y Hy.
    rewrite list_lookup_fmap in Hy.
    destruct (seq 0 (Z.to_nat W) !! k) as [k'|]; [|done]. injection Hy as <-.
    destruct (conv_at_kernel_first_bounds signal (Z.to_nat W) (1 / Qc_of_Z W)
                lo hi (k' + (length signal - 1 - length signal / 2))%nat) as [Hl Hh];
      [by apply Qclt_le_weak|done..|].
    set (r := Qc_of_Z (Z.of_nat (length signal)) * (1 / Qc_of_Z W)).
    assert (r ≤ 1) as Hr.
    { unfold r.
      apply Qcle_trans with (Qc_of_Z W * (1 / Qc_of_Z W));
        [|rewrite Htotal; apply Qcle_refl].
      apply Qcmult_le_mono_nonneg_r; [by apply Qclt_le_weak|].
      apply (proj1 (Z2Qc_inj_le _ _)). lia. }
    destruct (shrink_bounds r lo hi Hlo Hhi Hr) as [Hlo' Hhi'].
    rewrite Qcmult_assoc in Hl, Hh. fold r in Hl, Hh.
    split; [by trans (r * lo)|by trans (r * hi)].
Qed.

(** X12. In exact arithmetic the filter does not overshoot: when every
    sample of the series lies between [lo ≤ 0] and [hi ≥ 0], so does every
    sample of the output, for a window size [1 ≤ W ≤ N] (zero has to be
    in the range: the boundary windows count the missing samples as
    zero; on float64 the bound holds up to rounding). *)
Theorem moving_average_bounded (signal : list Qc) (W : Z) (lo hi : Qc) :
  (1 ≤ W)%Z →
  (W ≤ Z.of_nat (length signal))%Z →
  lo ≤ 0 → 0 ≤ hi →
  Forall (λ x, lo ≤ x ≤ hi) signal →
  ∃ out, moving_average signal W = Ok out ∧ Forall (λ y, lo ≤ y ≤ hi) out.
Proof. intros HW HWN. apply moving_average_range; [lia|done]. Qed.

Lemma moving_average_bounded_witness :
  ∃ out, moving_average (floats [0; 3; 10; 4]%Z) 3 = Ok out
         ∧ Forall (λ y, Qc_of_Z 0 ≤ y ≤ Qc_of_Z 10) out.
Proof.
  apply (moving_average_bounded (floats [0; 3; 10; 4]%Z) 3 (Qc_of_Z 0) (Qc_of_Z 10)).
  - lia.
  - vm_compute. discriminate.
  - vm_compute. discriminate.
  - vm_compute. discriminate.
  - repeat constructor; vm_compute; discriminate.
Defined.

(** ** Moving-average filter: linearity *)

Lemma sum_cons (x : Qc) (l : list Qc) : np.sum (x :: l) = x + np.sum l.
Proof. done. Qed.

Lemma sum_imap_scale (k : Qc) (g : nat → Qc → Qc) (v : list Qc) :
  np.sum (imap (λ m vm, k * g m vm) v) = k * np.sum (imap g v).
Proof.
  revert g. induction v as [|x v IH]; intros g.
  - simpl. by rewrite Qcmult_0_r.
  - rewrite !imap_cons, !sum_cons.
    change (imap ((λ m vm, k * g m vm) ∘ S) v)
      with (imap (λ m vm, k * (g ∘ S) m vm) v).
    rewrite (IH (g ∘ S)). ring.
Qed.

Lemma sum_imap_add (g h : nat → Qc → Qc) (v : list Qc) :
  np.sum (imap (λ m vm, g m vm + h m vm) v)
  = np.sum (imap g v) + np.sum (imap h v).
Proof.
  revert g h. induction v as [|x v IH]; intros g h.
  - simpl. by rewrite Qcplus_0_l.
  - rewrite !imap_cons, !sum_cons.
    change (imap ((λ m vm, g m vm + h m vm) ∘ S) v)
      with (imap (λ m vm, (g ∘ S) m vm + (h ∘ S) m vm) v).
    rewrite (IH (g ∘ S) (h ∘ S)). ring.
Qed.

Lemma sum_imap_zip_add (f : nat → Qc → Qc) (v w : list Qc) :
  (∀ m x y, f m (x + y) = f m x + f m y) →
  length v = length w →
  np.sum (imap f (zip_with Qcplus v w)) = np.sum (imap f v) + np.sum (imap f w).
Proof.
  intros Hadd. revert f Hadd w.
  induction v as [|x v IH]; intros f Hadd [|y w] Hlen; simpl in Hlen; try done.
  change (zip_with Qcplus (x :: v) (y :: w)) with ((x + y) :: zip_with Qcplus v w).
  rewrite !imap_cons, !sum_cons.
  rewrite (IH (f ∘ S)); [|by intros; apply Hadd|lia].
  rewrite Hadd. ring.
Qed.

Lemma default_lookup_scale (k : Qc) (a : list Qc) (j : nat) :
  default 0 (map (Qcmult k) a !! j) = k * default 0 (a !! j).
Proof.
  rewrite list_lookup_fmap. destruct (a !! j); simpl; [done|].
  by rewrite Qcmult_0_r.
Qed.

Lemma default_lookup_add (a b : list Qc) (j : nat) :
  length a = length b →
  default 0 (zip_with Qcplus a b !! j) = default 0 (a !! j) + default 0 (b !! j).
Proof.
  intros Hlen. rewrite lookup_zip_with.
  destruct (a !! j) as [x|] eqn:Hx; simpl.
  - destruct (lookup_lt_is_Some_2 b j) as [y ->]; [|done].
    apply lookup_lt_Some in Hx. lia.
  - rewrite (lookup_ge_None_2 b j); [by rewrite Qcplus_0_l|].
    apply lookup_ge_None in Hx. lia.
Qed.

Lemma conv_at_scale_l (k : Qc) (a v : list Qc) (p : nat) :
  np.conv_at (map (Qcmult k) a) v p = k * np.conv_at a v p.
Proof.
  unfold np.conv_at. rewrite <-sum_imap_scale. f_equal.
  apply imap_ext. intros m vm _. simpl.
  case_decide; [|by rewrite Qcmult_0_r].
  rewrite default_lookup_scale. ring.
Qed.

Lemma conv_at_scale_r (k : Qc) (a v : list Qc) (p : nat) :
  np.conv_at a (map (Qcmult k) v) p = k * np.conv_at a v p.
Proof.
  unfold np.conv_at. rewrite imap_fmap, <-sum_imap_scale. f_equal.
  apply imap_ext. intros m vm _. simpl.
  case_decide; [ring|by rewrite Qcmult_0_r].
Qed.

Lemma conv_at_add_l (a b v : list Qc) (p : nat) :
  length a = length b →
  np.conv_at (zip_with Qcplus a b) v p = np.conv_at a v p + np.conv_at b v p.
Proof.
  intros Hlen. unfold np.conv_at. rewrite <-sum_imap_add. f_equal.
  apply imap_ext. intros m vm _. simpl.
  case_decide; [|by rewrite Qcplus_0_l].
  rewrite default_lookup_add by done. ring.
Qed.

Lemma conv_at_add_r (a v w : list Qc) (p : nat) :
  length v = length w →
  np.conv_at a (zip_with Qcplus v w) p = np.conv_at a v p + np.conv_at a w p.
Proof.
  intros Hlen. unfold np.conv_at. apply sum_imap_zip_add; [|done].
  intros m x y. case_decide; [ring|by rewrite Qcplus_0_l].
Qed.

Lemma convolve_scale (k : Qc) (a v : list Qc) :
  np.convolve (map (Qcmult k) a) v
  = np.convolve a v ≫= λ out, Ok (map (Qcmult k) out).
Proof.
  unfold np.convolve. rewrite length_map.
  destruct (decide (length a < length v)%nat); rewrite ?length_map;
    repeat case_decide; simpl; try done; f_equal;
    rewrite map_map; apply map_ext; intros i.
  - apply conv_at_scale_r.
  - apply conv_at_scale_l.
Qed.

Lemma convolve_add (a b v oa ob : list Qc) :
  length a = length b →
  np.convolve a v = Ok oa →
  np.convolve b v = Ok ob →
  np.convolve (zip_with Qcplus a b) v = Ok (zip_with Qcplus oa ob).
Proof.
  intros Hlen. unfold np.convolve.
  rewrite length_zip_with_l_eq by done. rewrite <-Hlen.
  destruct (decide (length a < length v)%nat);
    rewrite ?length_zip_with_l_eq, <-?Hlen by done;
    repeat case_decide; try done; intros [= <-] [= <-]; f_equal;
    rewrite zip_with_fmap_l, zip_with_fmap_r, zip_with_diag;
    apply map_ext; intros i.
  - by apply conv_at_add_r.
  - by apply conv_at_add_l.
Qed.

(** X13. In exact arithmetic the filter is homogeneous: multiplying every
    sample of the input by [k] multiplies every sample of the output by
    [k], and the call fails on the scaled input exactly as on the
    original (on float64 the two outputs agree up to rounding). *)
Theorem moving_average_scaled (k : Qc) (signal : list Qc) (W : Z) :
  moving_average (map (Qcmult k) signal) W
  = moving_average signal W ≫= λ out, Ok (map (Qcmult k) out).
Proof.
  unfold moving_average. destruct (np.ones W) as [ones|e]; simpl; [|done].
  apply convolve_scale.
Qed.

(** X14. In exact arithmetic the filter is additive: on two signals of
    the same length the output for their sample-by-sample sum is the
    sample-by-sample sum of the two outputs (on float64 up to
    rounding). *)
Theorem moving_average_superposition (a b oa ob : list Qc) (W : Z) :
  length a = length b →
  moving_average a W = Ok oa →
  moving_average b W = Ok ob →
  moving_average (zip_with Qcplus a b) W = Ok (zip_with Qcplus oa ob).
Proof.
  intros Hlen. unfold moving_average.
  destruct (np.ones W) as [ones|e]; simpl; [|done].
  by apply convolve_add.
Qed.

Lemma moving_average_superposition_witness :
  moving_average (zip_with Qcplus (floats [1; 2; 3; 4]%Z) (floats [0; 5; 0; -5]%Z)) 3
  = Ok (zip_with Qcplus
          [Qc_of_Z 1; Qc_of_Z 2; Qc_of_Z 3; Q2Qc (7 # 3)]
          [Q2Qc (5 # 3); Q2Qc (5 # 3); Qc_of_Z 0; Q2Qc (-5 # 3)]).
Proof.
  apply (moving_average_superposition (floats [1; 2; 3; 4]%Z) (floats [0; 5; 0; -5]%Z)).
  - reflexivity.
  - by_evaluation.
  - by_evaluation.
Defined.

(** ** Low-pass filter: the normalized cutoff *)

Lemma half_neg (fs : Qc) : fs < 0 → fs / 2 < 0.
Proof.
  intros Hfs. apply Qcopp_lt_iff. replace (- 0) with 0 by ring.
  replace (- (fs / 2)) with (- fs / 2) by (field; apply two_ne_0).
  apply half_pos. apply Qcopp_lt_iff. by replace (- - fs) with fs by ring.
Qed.

(** Multiplying by a negative number reverses an inequality. *)
Lemma Qcmult_le_neg_r (x y z : Qc) : z < 0 → x ≤ y → y * z ≤ x * z.
Proof.
  intros Hz Hxy.
  assert (0 ≤ - z) as Hz'.
  { apply Qclt_le_weak, Qcopp_lt_iff. by replace (- - z) with z by ring. }
  pose proof (Qcmult_le_mono_nonneg_r x y (- z) Hz' Hxy) as Hle.
  apply Qcopp_le_compat in Hle.
  replace (- (y * - z)) with (y * z) in Hle by ring.
  by replace (- (x * - z)) with (x * z) in Hle by ring.
Qed.

(** X15. In exact arithmetic, for a positive sampling rate and a positive
    cutoff the normalized cutoff handed to the filter design lies in
    (0, 0.99] (on float64 it can miss 0.99 by a rounding error and leave
    the range for rates near the ends of the float range): it is
    [fc / (fs/2)] when the cutoff is at most 0.99 times the Nyquist
    frequency and the function's outcome is the library's at that
    value. *)
Theorem butterworth_lowpass_cutoff_range `{SciPySignal}
    (signal : list Qc) (fs fc : Qc) (order : Z) :
  0 < fs →
  0 < fc →
  ∃ Wn,
    Wn = py_min fc (c099 * (fs / 2)) / (fs / 2)
    ∧ 0 < Wn
    ∧ Wn ≤ c099
    ∧ (fc ≤ c099 * (fs / 2) → Wn = fc / (fs / 2))
    ∧ butterworth_lowpass signal fs fc order
      = butter order Wn ≫= (λ ba, filtfilt ba signal).
Proof.
  intros Hfs Hfc.
  pose proof (half_pos fs Hfs) as Hnyq.
  assert (fs / 2 ≠ 0) as Hnyq0 by (by apply not_eq_sym, Qclt_not_eq).
  assert (0 < / (fs / 2)) as Hinv by (by apply Qcinv_pos).
  eexists. split; [done|]. unfold py_min.
  destruct (decide (c099 * (fs / 2) < fc)) as [Hclip|Hkeep].
  - rewrite Qcdiv_mult_l by done. split_and!.
    + reflexivity.
    + apply Qcle_refl.
    + intros Hle. by apply Qcle_not_lt in Hle.
    + rewrite butterworth_lowpass_run by (by apply not_eq_sym, Qclt_not_eq).
      unfold py_min. destruct (decide (c099 * (fs / 2) < fc)); [|done].
      by rewrite Qcdiv_mult_l.
  - apply Qcnot_lt_le in Hkeep. split_and!.
    + by apply Qcmult_pos_pos.
    + rewrite <-(Qcdiv_mult_l c099 (fs / 2)) by done.
      apply Qcmult_le_mono_nonneg_r; [by apply Qclt_le_weak|done].
    + done.
    + rewrite butterworth_lowpass_run by (by apply not_eq_sym, Qclt_not_eq).
      unfold py_min. destruct (decide (c099 * (fs / 2) < fc)) as [Hlt|_]; [|done].
      by apply Qcle_not_lt in Hkeep.
Qed.

Lemma butterworth_lowpass_cutoff_range_witness :
  ∃ Wn,
    Wn = py_min (Qc_of_Z 8) (c099 * (Qc_of_Z 100 / 2)) / (Qc_of_Z 100 / 2)
    ∧ 0 < Wn
    ∧ Wn ≤ c099
    ∧ (Qc_of_Z 8 ≤ c099 * (Qc_of_Z 100 / 2) → Wn = Qc_of_Z 8 / (Qc_of_Z 100 / 2))
    ∧ @butterworth_lowpass passthrough_signal
        (floats (seqZ 0 16)) (Qc_of_Z 100) (Qc_of_Z 8) 4
      = @butter passthrough_signal 4 Wn
          ≫= (λ ba, @filtfilt passthrough_signal ba (floats (seqZ 0 16))).
Proof.
  apply (@butterworth_lowpass_cutoff_range passthrough_signal
           (floats (seqZ 0 16)) (Qc_of_Z 100) (Qc_of_Z 8) 4).
  - reflexivity.
  - reflexivity.
Defined.

(** X16. In exact arithmetic a negative sampling rate is not refused and
    defeats the clamp: the normalized cutoff handed to the design is then
    at least 0.99, and exactly 0.99 for every cutoff [fc ≥ 0.99 * fs/2],
    in particular for every non-negative one (on float64: 0.99 up to
    rounding, and a Python-float rate whose half underflows to zero ends
    in the division error instead). *)
Theorem butterworth_lowpass_negative_rate_cutoff `{SciPySignal}
    (signal : list Qc) (fs fc : Qc) (order : Z) :
  fs < 0 →
  ∃ Wn,
    Wn = py_min fc (c099 * (fs / 2)) / (fs / 2)
    ∧ c099 ≤ Wn
    ∧ (c099 * (fs / 2) ≤ fc → Wn = c099)
    ∧ (0 ≤ fc → Wn = c099)
    ∧ butterworth_lowpass signal fs fc order
      = butter order Wn ≫= (λ ba, filtfilt ba signal).
Proof.
  intros Hfs.
  pose proof (half_neg fs Hfs) as Hnyq.
  assert (fs / 2 ≠ 0) as Hnyq0 by (by apply Qclt_not_eq).
  assert (/ (fs / 2) < 0) as Hinv.
  { pose proof (Qcinv_neg _ Hnyq) as Hi. unfold Qcdiv in Hi.
    by rewrite Qcmult_1_l in Hi. }
  assert (c099 * (fs / 2) < 0) as Hclipneg.
  { rewrite <-(Qcmult_0_l (fs / 2)). rewrite (Qcmult_comm c099), (Qcmult_comm 0).
    apply Qcopp_lt_iff.
    replace (- (fs / 2 * 0)) with (- (fs / 2) * 0) by ring.
    replace (- (fs / 2 * c099)) with (- (fs / 2) * c099) by ring.
    apply Qcmult_lt_mono_pos_l; [|reflexivity].
    apply Qcopp_lt_iff. by replace (- - (fs / 2)) with (fs / 2) by ring. }
  assert (∀ Wn, Wn = py_min fc (c099 * (fs / 2)) / (fs / 2) →
          butterworth_lowpass signal fs fc order
          = butter order Wn ≫= (λ ba, filtfilt ba signal)) as Hrun.
  { intros Wn ->. apply butterworth_lowpass_run. by apply Qclt_not_eq. }
  assert (c099 * (fs / 2) ≤ fc →
          py_min fc (c099 * (fs / 2)) / (fs / 2) = c099) as Hclamp.
  { intros Hle. unfold py_min.
    destruct (decide (c099 * (fs / 2) < fc)) as [_|Hnlt].
    - by apply Qcdiv_mult_l.
    - apply Qcnot_lt_le in Hnlt.
      rewrite (Qcle_antisym _ _ Hnlt Hle). by apply Qcdiv_mult_l. }
  eexists. split; [done|]. split_and!.
  - unfold py_min. destruct (decide (c099 * (fs / 2) < fc)) as [_|Hkeep].
    + rewrite Qcdiv_mult_l by done. apply Qcle_refl.
    + apply Qcnot_lt_le in Hkeep.
      rewrite <-(Qcdiv_mult_l c099 (fs / 2)) at 1 by done.
      by apply Qcmult_le_neg_r.
  - done.
  - intros Hfc. apply Hclamp. trans 0; [by apply Qclt_le_weak|done].
  - by apply Hrun.
Qed.

Lemma butterworth_lowpass_negative_rate_cutoff_witness :
  ∃ Wn,
    Wn = py_min (Qc_of_Z 8) (c099 * (Qc_of_Z (-100) / 2)) / (Qc_of_Z (-100) / 2)
    ∧ c099 ≤ Wn
    ∧ (c099 * (Qc_of_Z (-100) / 2) ≤ Qc_of_Z 8 → Wn = c099)
    ∧ (0 ≤ Qc_of_Z 8 → Wn = c099)
    ∧ @butterworth_lowpass passthrough_signal
        (floats (seqZ 0 16)) (Qc_of_Z (-100)) (Qc_of_Z 8) 4
      = @butter passthrough_signal 4 Wn
          ≫= (λ ba, @filtfilt passthrough_signal ba (floats (seqZ 0 16))).
Proof.
  apply (@butterworth_lowpass_negative_rate_cutoff passthrough_signal
           (floats (seqZ 0 16)) (Qc_of_Z (-100)) (Qc_of_Z 8) 4).
  reflexivity.
Defined.

(** ** CSV loader *)

Lemma lstrip_app_space (l s : loader.pystr) :
  Forall (λ x, loader.isspace x = true) l →
  loader.lstrip (l ++ s) = loader.lstrip s.
Proof. induction 1 as [|c l Hc _ IH]; simpl; [done|]. by rewrite Hc. Qed.

Lemma lstrip_app_r (s r : loader.pystr) :
  Forall (λ x, loader.isspace x = true) r →
  loader.lstrip (s ++ r) = loader.lstrip s ++ r
  ∨ (loader.lstrip s = [] ∧ loader.lstrip (s ++ r) = []).
Proof.
  intros Hr. induction s as [|c s IH]; simpl.
  - right. split; [done|].
    rewrite <-(app_nil_r r). by rewrite lstrip_app_space.
  - destruct (loader.isspace c); [done|]. by left.
Qed.

Lemma rstrip_app_space (s r : loader.pystr) :
  Forall (λ x, loader.isspace x = true) r →
  loader.rstrip (s ++ r) = loader.rstrip s.
Proof.
  intros Hr. unfold loader.rstrip.
  rewrite reverse_app, lstrip_app_space; [done|].
  by apply Forall_reverse.
Qed.

(** Whitespace around a string does not survive [strip]. *)
Lemma strip_padding (l s r : loader.pystr) :
  Forall (λ x, loader.isspace x = true) l →
  Forall (λ x, loader.isspace x = true) r →
  loader.strip (l ++ s ++ r) = loader.strip s.
Proof.
  intros Hl Hr. unfold loader.strip. rewrite lstrip_app_space by done.
  destruct (lstrip_app_r s r Hr) as [->|[-> ->]]; [|done].
  by apply rstrip_app_space.
Qed.

Lemma strip_columns_padded (data data' : loader.frame) :
  padded data data' → loader.strip_columns data' = loader.strip_columns data.
Proof.
  induction 1 as [|[n col] [n' col'] d d' (Hdata & l & r & Hl & Hr & Hname) _ IH];
    simpl in *; [done|].
  subst. by rewrite strip_padding, IH.
Qed.

(** X18. Whitespace around the header names does not matter: two files
    whose frames hold the same data under names that differ only by
    leading and trailing whitespace load to the same outcome, result or
    exception. *)
Theorem load_fsr_csv_header_padding {F E : Type}
    (read_csv read_csv' : F → E + loader.frame) (filename : F)
    (data data' : loader.frame) :
  read_csv filename = inr data →
  read_csv' filename = inr data' →
  padded data data' →
  loader.load_fsr_csv read_csv' filename = loader.load_fsr_csv read_csv filename.
Proof.
  intros Hread Hread' Hpad. unfold loader.load_fsr_csv.
  by rewrite Hread, Hread', (strip_columns_padded _ _ Hpad).
Qed.

Lemma getitem_to_numpy_None (data : loader.frame) (key : loader.pystr) :
  loader.getitem_to_numpy data key = None ↔ ∀ c, c ∈ data → c.1 ≠ key.
Proof.
  unfold loader.getitem_to_numpy. split.
  - intros Hnone c Hc Hkey.
    assert (c ∈ filter (λ c, c.1 = key) data) as Hin
      by (by apply list_elem_of_filter).
    destruct (filter (λ c, c.1 = key) data) as [|c1 [|c2 cs]];
      [by apply elem_of_nil in Hin|done..].
  - intros Hnot.
    destruct (filter (λ c, c.1 = key) data) as [|c1 cs] eqn:Hf; [done|].
    assert (c1 ∈ filter (λ c, c.1 = key) data) as Hin
      by (rewrite Hf; apply list_elem_of_here).
    apply list_elem_of_filter in Hin as [Hkey Hin]. by destruct (Hnot c1 Hin).
Qed.

Lemma strip_columns_elem (data : loader.frame) (key : loader.pystr) :
  (∀ c, c ∈ loader.strip_columns data → c.1 ≠ key)
  ↔ (∀ c, c ∈ data → loader.strip c.1 ≠ key).
Proof.
  unfold loader.strip_columns. split.
  - intros Hnot c Hc.
    apply (Hnot (loader.strip c.1, c.2)).
    by apply (list_elem_of_fmap_2 (λ c, (loader.strip c.1, c.2))).
  - intros Hnot c Hc.
    apply list_elem_of_fmap in Hc as (c0 & -> & Hc0). by apply Hnot.
Qed.

Lemma not_all_differ (data : loader.frame) (key : loader.pystr) :
  ¬ (∀ c, c ∈ data → loader.strip c.1 ≠ key)
  ↔ ∃ c, c ∈ data ∧ loader.strip c.1 = key.
Proof.
  split.
  - intros Hnot. induction data as [|c data IH].
    + destruct Hnot. intros c Hc. by apply elem_of_nil in Hc.
    + destruct (decide (loader.strip c.1 = key)) as [Hkey|Hkey].
      * exists c. split; [apply list_elem_of_here|done].
      * destruct IH as (c' & Hc' & Hkey').
        { intros Hall. apply Hnot. intros c' Hc'.
          apply elem_of_cons in Hc' as [->|Hc']; [done|by apply Hall]. }
        exists c'. split; [by apply list_elem_of_further|done].
  - intros (c & Hc & Hkey) Hall. by apply (Hall c).
Qed.

(** X19. A missing column is a [KeyError], the time column looked up
    first: the loader raises [KeyError("time")] exactly when no column
    name strips to ["time"], [KeyError("force")] exactly when one does but
    none strips to ["force"], and it returns exactly when both names are
    there. *)
Theorem load_fsr_csv_missing_column {F E : Type}
    (read_csv : F → E + loader.frame) (filename : F) (data : loader.frame) :
  read_csv filename = inr data →
  (loader.load_fsr_csv read_csv filename = inl (loader.KeyError loader.time_key)
   ↔ ∀ c, c ∈ data → loader.strip c.1 ≠ loader.time_key)
  ∧ (loader.load_fsr_csv read_csv filename = inl (loader.KeyError loader.force_key)
     ↔ (∃ c, c ∈ data ∧ loader.strip c.1 = loader.time_key)
       ∧ ∀ c, c ∈ data → loader.strip c.1 ≠ loader.force_key)
  ∧ ((∃ r, loader.load_fsr_csv read_csv filename = inr r)
     ↔ (∃ c, c ∈ data ∧ loader.strip c.1 = loader.time_key)
       ∧ (∃ c, c ∈ data ∧ loader.strip c.1 = loader.force_key)).
Proof.
  intros Hread. unfold loader.load_fsr_csv. rewrite Hread.
  rewrite <-!not_all_differ, <-!strip_columns_elem, <-!getitem_to_numpy_None.
  destruct (loader.getitem_to_numpy (loader.strip_columns data) loader.time_key)
    as [time|];
    destruct (loader.getitem_to_numpy (loader.strip_columns data) loader.force_key)
    as [force|]; split_and!; split; intros;
    repeat match goal with
      | H : _ ∧ _ |- _ => destruct H
      | H : ∃ _, _ |- _ => destruct H
      end;
    try done; try congruence; eauto.
Qed.

Lemma sample_frame_is_padded : padded sample_frame sample_frame_padded.
Proof.
  repeat constructor; simpl.
  - exists [32; 9]%N, [32]%N. by repeat constructor.
  - exists [], []. by repeat constructor.
  - exists [], [13; 10]%N. by repeat constructor.
Qed.

Lemma load_fsr_csv_header_padding_witness :
  loader.load_fsr_csv (λ _ : unit, inr sample_frame_padded : unit + loader.frame) ()
  = loader.load_fsr_csv (λ _ : unit, inr sample_frame : unit + loader.frame) ().
Proof.
  apply (load_fsr_csv_header_padding
           (λ _ : unit, inr sample_frame : unit + loader.frame)
           (λ _ : unit, inr sample_frame_padded : unit + loader.frame)
           () sample_frame sample_frame_padded).
  - reflexivity.
  - reflexivity.
  - apply sample_frame_is_padded.
Defined.

Lemma load_fsr_csv_missing_column_witness :
  (loader.load_fsr_csv (λ _ : unit, inr sample_frame_padded : unit + loader.frame) ()
   = inl (loader.KeyError loader.time_key)
   ↔ ∀ c, c ∈ sample_frame_padded → loader.strip c.1 ≠ loader.time_key)
  ∧ (loader.load_fsr_csv (λ _ : unit, inr sample_frame_padded : unit + loader.frame) ()
     = inl (loader.KeyError loader.force_key)
     ↔ (∃ c, c ∈ sample_frame_padded ∧ loader.strip c.1 = loader.time_key)
       ∧ ∀ c, c ∈ sample_frame_padded → loader.strip c.1 ≠ loader.force_key)
  ∧ ((∃ r, loader.load_fsr_csv
             (λ _ : unit, inr sample_frame_padded : unit + loader.frame) () = inr r)
     ↔ (∃ c, c ∈ sample_frame_padded ∧ loader.strip c.1 = loader.time_key)
       ∧ (∃ c, c ∈ sample_frame_padded ∧ loader.strip c.1 = loader.force_key)).
Proof.
  apply (load_fsr_csv_missing_column
           (λ _ : unit, inr sample_frame_padded : unit + loader.frame)
           () sample_frame_padded).
  reflexivity.
Defined.

(** The padded file loads to its two columns; a file without a force
    column raises [KeyError("force")]. *)
Example load_fsr_csv_padded_file :
  loader.load_fsr_csv (λ _ : unit, inr sample_frame_padded : unit + loader.frame) ()
  = inr (loader.Arr1 (floats [0; 1; 2; 3]%Z), loader.Arr1 (floats [0; 5; 9; 2]%Z)).
Proof. reflexivity. Qed.

Example load_fsr_csv_no_force :
  loader.load_fsr_csv
    (λ _ : unit, inr [(padded_time_name, floats [0; 1]%Z)] : unit + loader.frame) ()
  = inl (loader.KeyError loader.force_key).
Proof. reflexivity. Qed.

Lemma filter_unique_key (data : loader.frame) (key : loader.pystr) (col : list Qc) :
  NoDup (map fst data) → (key, col) ∈ data →
  filter (λ c, c.1 = key) data = [(key, col)].
Proof.
  induction data as [|c data IH]; intros Hnodup Hin.
  - by apply elem_of_nil in Hin.
  - simpl in Hnodup. apply NoDup_cons in Hnodup as [Hfresh Hnodup].
    apply elem_of_cons in Hin as [<-|Hin].
    + rewrite (filter_cons_True (λ c : loader.pystr * list Qc, c.1 = key)) by done.
      f_equal.
      destruct (filter (λ c, c.1 = key) data) as [|c' cs] eqn:Hf; [done|].
      assert (c' ∈ filter (λ c, c.1 = key) data) as Hc'
        by (rewrite Hf; apply list_elem_of_here).
      apply list_elem_of_filter in Hc' as [Hkey Hc'].
      destruct Hfresh. simpl. rewrite <-Hkey. by apply list_elem_of_fmap_2.
    + rewrite (filter_cons_False (λ c : loader.pystr * list Qc, c.1 = key));
        [by apply IH|].
      intros Hkey. destruct Hfresh. rewrite Hkey.
      by apply (list_elem_of_fmap_2 fst data (key, col)).
Qed.

Lemma getitem_to_numpy_unique (data : loader.frame) (name : loader.pystr)
    (col : list Qc) :
  NoDup (map (λ c, loader.strip c.1) data) →
  (name, col) ∈ data →
  loader.getitem_to_numpy (loader.strip_columns data) (loader.strip name)
  = Some (loader.Arr1 col).
Proof.
  intros Hnodup Hin. unfold loader.getitem_to_numpy.
  rewrite (filter_unique_key _ (loader.strip name) col); [done| |].
  - unfold loader.strip_columns. by rewrite map_map.
  - by apply (list_elem_of_fmap_2 (λ c, (loader.strip c.1, c.2)) data (name, col)).
Qed.

(** X20. When the stripped column names are pairwise different, the
    loader returns the data of the column whose name strips to ["time"]
    and the data of the column whose name strips to ["force"], as two
    vectors, wherever the two columns stand in the file and whatever other
    columns it has; in a frame whose columns hold the same number of
    records the two vectors have the same length. *)
Theorem load_fsr_csv_columns {F E : Type}
    (read_csv : F → E + loader.frame) (filename : F) (data : loader.frame)
    (time_name force_name : loader.pystr) (time force : list Qc) :
  read_csv filename = inr data →
  NoDup (map (λ c, loader.strip c.1) data) →
  (time_name, time) ∈ data →
  loader.strip time_name = loader.time_key →
  (force_name, force) ∈ data →
  loader.strip force_name = loader.force_key →
  loader.load_fsr_csv read_csv filename = inr (loader.Arr1 time, loader.Arr1 force)
  ∧ (rectangular data → length time = length force).
Proof.
  intros Hread Hnodup Htime Htkey Hforce Hfkey. split.
  - unfold loader.load_fsr_csv. rewrite Hread. simpl.
    rewrite <-Htkey, (getitem_to_numpy_unique data time_name time) by done.
    by rewrite <-Hfkey, (getitem_to_numpy_unique data force_name force).
  - intros Hrect. by apply (Hrect (time_name, time) (force_name, force)).
Qed.

Lemma load_fsr_csv_columns_witness :
  loader.load_fsr_csv (λ _ : unit, inr sample_frame_padded : unit + loader.frame) ()
  = inr (loader.Arr1 (floats [0; 1; 2; 3]%Z), loader.Arr1 (floats [0; 5; 9; 2]%Z))
  ∧ (rectangular sample_frame_padded →
     length (floats [0; 1; 2; 3]%Z) = length (floats [0; 5; 9; 2]%Z)).
Proof.
  apply (load_fsr_csv_columns
           (λ _ : unit, inr sample_frame_padded : unit + loader.frame)
           () sample_frame_padded padded_time_name padded_force_name).
  - reflexivity.
  - by_evaluation.
  - by_evaluation.
  - reflexivity.
  - by_evaluation.
  - reflexivity.
Defined.

(** Two columns whose names strip to ["time"] make the time array a
    matrix with one row per record. *)
Example load_fsr_csv_duplicate_time :
  loader.load_fsr_csv
    (λ _ : unit,
       inr [ (padded_time_name, floats [0; 1]%Z);
             (loader.time_key, floats [5; 6]%Z);
             (loader.force_key, floats [3; 4]%Z) ] : unit + loader.frame) ()
  = inr (loader.Arr2 [floats [0; 5]%Z; floats [1; 6]%Z],
         loader.Arr1 (floats [3; 4]%Z)).
Proof. reflexivity. Qed.

(** ** The pipeline of [main] *)

(** X21. The event detection of [main]: on aligned series with at least
    two samples, whatever rate was estimated, whenever the low-pass
    filter called with it (cutoff 8, order 4) returns, the detector run on
    the filtered force and the time series returns, and the filtered
    force can be read at both event indices, as the final plot does.  The
    library's application is taken to keep the length of its input. *)
Theorem main_events_in_bounds `{SciPySignal}
    (time force butter_force : list Qc) (fs : Qc) :
  (∀ ba x out, filtfilt ba x = Ok out → length out = length x) →
  (2 ≤ length force)%nat →
  length time = length force →
  butterworth_lowpass force fs (Qc_of_Z 8) 4 = Ok butter_force →
  length butter_force = length force
  ∧ ∃ heel_idx toe_idx heel_time toe_time,
      detect_heel_toe butter_force time
      = Ok (heel_idx, toe_idx, heel_time, toe_time)
      ∧ is_Some (butter_force !! heel_idx)
      ∧ is_Some (butter_force !! toe_idx).
Proof.
  intros Hshape HN Hlen Hlow.
  assert (length butter_force = length force) as Hlen'.
  { unfold butterworth_lowpass in Hlow.
    apply bind_Ok in Hlow as (nyquist & _ & Hlow).
    apply bind_Ok in Hlow as (Wn & _ & Hlow).
    apply bind_Ok in Hlow as (ba & _ & Hlow).
    apply bind_Ok in Hlow as (filtered & Hfilt & [= ->]).
    by eapply Hshape. }
  split; [done|].
  destruct (detect_heel_toe_run butter_force time)
    as (h & t & ht & tt & Hrun & Hh & Ht & _); [lia|lia|].
  apply first_max_at_lt in Hh. apply first_min_at_lt in Ht.
  rewrite diff_length in Hh, Ht.
  exists (h + 1)%nat, (t + 1)%nat, ht, tt.
  split_and!; [done| |]; apply lookup_lt_is_Some_2; lia.
Qed.

Lemma main_events_in_bounds_witness :
  length (floats [0; 0; 1; 3; 6; 9; 9; 9; 9; 8; 6; 3; 1; 0; 0; 0]%Z)
  = length (floats [0; 0; 1; 3; 6; 9; 9; 9; 9; 8; 6; 3; 1; 0; 0; 0]%Z)
  ∧ ∃ heel_idx toe_idx heel_time toe_time,
      detect_heel_toe (floats [0; 0; 1; 3; 6; 9; 9; 9; 9; 8; 6; 3; 1; 0; 0; 0]%Z)
                      (floats (seqZ 0 16))
      = Ok (heel_idx, toe_idx, heel_time, toe_time)
      ∧ is_Some (floats [0; 0; 1; 3; 6; 9; 9; 9; 9; 8; 6; 3; 1; 0; 0; 0]%Z
                 !! heel_idx)
      ∧ is_Some (floats [0; 0; 1; 3; 6; 9; 9; 9; 9; 8; 6; 3; 1; 0; 0; 0]%Z
                 !! toe_idx).
Proof.
  apply (@main_events_in_bounds passthrough_signal
           (floats (seqZ 0 16))
           (floats [0; 0; 1; 3; 6; 9; 9; 9; 9; 8; 6; 3; 1; 0; 0; 0]%Z)
           (floats [0; 0; 1; 3; 6; 9; 9; 9; 9; 8; 6; 3; 1; 0; 0; 0]%Z)
           (Qc_of_Z 100)).
  - apply passthrough_filtfilt_shape.
  - simpl. lia.
  - reflexivity.
  - by_evaluation.
Defined.

(** X22. The pairs of arrays [main] plots against each other: [time[1:]]
    and the raw slope always have the same length; the moving average
    with the window of three has the length of the time series exactly
    when the series has at least three samples (on one or two samples it
    has three). *)
Theorem main_plot_lengths (time force : list Qc) :
  length time = length force →
  (1 ≤ length force)%nat →
  length (drop 1 time) = length (np.diff force)
  ∧ ∃ ma_force,
      moving_average force 3 = Ok ma_force
      ∧ length ma_force = (length force `max` 3)%nat
      ∧ (length ma_force = length time ↔ (3 ≤ length force)%nat).
Proof.
  intros Hlen HN. split.
  - rewrite length_drop, diff_length. lia.
  - destruct (moving_average_length force 3 HN) as (ma & Hma & Hmalen); [lia|].
    exists ma. split_and!; [done|by rewrite Hmalen|]. rewrite Hmalen, Hlen. lia.
Qed.

Lemma main_plot_lengths_witness :
  length (drop 1 (floats [0; 1]%Z)) = length (np.diff (floats [4; 6]%Z))
  ∧ ∃ ma_force,
      moving_average (floats [4; 6]%Z) 3 = Ok ma_force
      ∧ length ma_force = (length (floats [4; 6]%Z) `max` 3)%nat
      ∧ (length ma_force = length (floats [0; 1]%Z)
         ↔ (3 ≤ length (floats [4; 6]%Z))%nat).
Proof.
  apply (main_plot_lengths (floats [0; 1]%Z) (floats [4; 6]%Z)).
  - reflexivity.
  - simpl. lia.
Defined.

(** ** Sampling-rate estimator: the exact and the float64 reading *)




